(** * Signify: the playback and interpolation engine of [main.py]

    A shallow embedding of [SignLanguagePlayer.calculate_smooth_frame],
    [SignLanguagePlayer.render_to_screen], [AvatarDrawer.draw_frame] and
    [SignLanguagePlayer.play_sentence], with the properties of the
    specification that concern them, and of
    [DictionaryBuilder.convert_landmarks_to_list] and
    [DictionaryBuilder.process_video_to_json], which write the clips that
    the player reads.

    Modelling choices, all visible in the definitions below:
    - a frame is the Python dict decoded from JSON: a finite map from
      strings to lists of points, a point being a list of numbers;
    - numbers are exact rationals ([Qc]); floating rounding is not modelled;
    - an [IndexError] raised by a subscript is the [None] of an [option]
      (in the interpolator) or the [Raise] control outcome (in the player);
    - the window, the keyboard and the console are an explicit [state]:
      the values the successive [cv2.waitKey] calls are going to return,
      the frames shown so far with their labels, and the lines printed. *)

From Stdlib Require Import ZArith QArith Qcanon Ascii String Lia.
From Stdlib Require Import Qround Qabs Lqa.
From stdpp Require Import base option list numbers strings gmap fin_maps.

#[local] Set Warnings "-clear-no-such-hyp".

Local Open Scope string_scope.
Local Open Scope list_scope.

(** ** Data model *)

Abbreviation coord := Qc (only parsing).
Abbreviation point := (list Qc) (only parsing).
Abbreviation frame := (gmap string (list (list Qc))) (only parsing).
Abbreviation sequence := (list (gmap string (list (list Qc)))) (only parsing).

(** The keys iterated by [calculate_smooth_frame] (main.py, line 44); the
    keys of [BODY_PART_COLORS] in avatar_drawer.py are the same, in the same
    order. *)
Definition BODY_PARTS : list string := ["f"; "p"; "l"; "r"].

(** [d.get(key, [])] *)
Definition get (d : frame) (key : string) : list point :=
  default [] (d !! key).

(** Python truth value of a list: [not l] is [negb (truthy l)]. *)
Definition truthy {A} (l : list A) : bool :=
  match l with
  | [] => false
  | _ :: _ => true
  end.

(** ** The interpolator *)

(** [Start + (End - Start) * Factor] on one coordinate. *)
Definition lerp (a b t : coord) : coord := (a + (b - a) * t)%Qc.

(** [[point_a[i] + (point_b[i] - point_a[i]) * t for i in range(3)]];
    a subscript out of range raises, which is [None]. *)
Definition new_coords (point_a point_b : point) (t : coord) : option point :=
  mapM (λ i, a ← point_a !! i; b ← point_b !! i; Some (lerp a b t)) (seq 0 3).

(** The loop over [zip(points_a, points_b)] of lines 56-63. *)
Definition smooth_points (points_a points_b : list point) (t : coord)
  : option (list point) :=
  mapM (λ ab : point * point, new_coords ab.1 ab.2 t) (zip points_a points_b).

(** One iteration of the loop over the body parts (lines 45-65), on the
    dictionary built so far. *)
Definition smooth_key (start_frame end_frame : frame) (t : coord)
    (key : string) (interpolated_result : frame) : option frame :=
  let points_a := get start_frame key in
  let points_b := get end_frame key in
  if negb (truthy points_a) || negb (truthy points_b) then
    Some (<[key := if truthy points_b then points_b else points_a]>
            interpolated_result)
  else
    smoothed_points ← smooth_points points_a points_b t;
    Some (<[key := smoothed_points]> interpolated_result).

Fixpoint smooth_keys (start_frame end_frame : frame) (t : coord)
    (keys : list string) (interpolated_result : frame) : option frame :=
  match keys with
  | [] => Some interpolated_result
  | key :: keys' =>
      r ← smooth_key start_frame end_frame t key interpolated_result;
      smooth_keys start_frame end_frame t keys' r
  end.

Definition calculate_smooth_frame (start_frame end_frame : frame)
    (interpolation_factor : coord) : option frame :=
  smooth_keys start_frame end_frame interpolation_factor BODY_PARTS ∅.

(** ** The renderer *)

(** A filled circle drawn by [cv2.circle]: centre in pixels and BGR colour. *)
Record circle := Circle {
  center_x : Z;
  center_y : Z;
  color : Z * Z * Z
}.

(** [BODY_PART_COLORS] of avatar_drawer.py, in insertion order. *)
Definition BODY_PART_COLORS : list (string * (Z * Z * Z)) :=
  [("f", (0, 255, 255)); ("p", (255, 0, 255));
   ("l", (0, 255, 0)); ("r", (0, 255, 0))]%Z.

(** [int(x)] on a number: truncation towards zero, of the exact value (the
    code truncates the rounded float product, which can be one below). *)
Definition int (x : coord) : Z := (Qnum x ÷ Zpos (Qden x))%Z.

Definition canvas_width : Z := 1280.
Definition canvas_height : Z := 720.

(** The body of the loop over the points of one body part (lines 61-69 of
    avatar_drawer.py): subscripts 0 and 1 of the point are read. *)
Definition draw_point (col : Z * Z * Z) (point_coordinates : point)
  : option circle :=
  x_float ← point_coordinates !! 0%nat;
  y_float ← point_coordinates !! 1%nat;
  Some (Circle (int (x_float * Qc_of_Z canvas_width)%Qc)
               (int (y_float * Qc_of_Z canvas_height)%Qc) col).

(** [AvatarDrawer.draw_frame], returning the circles it draws, in order;
    [None] when a point has fewer than two coordinates ([IndexError]). What
    [cv2.circle] itself refuses (a centre beyond a C int) is not modelled:
    the centre is an unbounded integer here. *)
Definition draw_frame (frame_data : frame) : option (list circle) :=
  drawn ← mapM (λ kc : string * (Z * Z * Z),
                  match frame_data !! kc.1 with
                  | Some points_list => mapM (draw_point kc.2) points_list
                  | None => Some []
                  end) BODY_PART_COLORS;
  Some (mjoin drawn).

(** ** The player *)

(** How a block of statements ends: it falls through ([Continue]), the
    function executes [return] ([Return]), or an [IndexError] propagates
    ([Raise]). *)
Inductive control := Continue | Return | Raise.

(** What [play_sentence] reads and writes. [keys] holds the values that the
    coming calls of [cv2.waitKey] return, in order (and -1, no key, once it
    is exhausted); [shown] the frames passed to [render_to_screen] that
    reached [cv2.imshow], with their labels, oldest first; [printed] the
    lines written by [print]. [last_frame_data] is the local variable of
    that name. *)
Record state := State {
  last_frame_data : option frame;
  keys : list Z;
  shown : list (frame * string);
  printed : list string
}.

Definition set_last (f : frame) (st : state) : state :=
  State (Some f) (keys st) (shown st) (printed st).

Definition show (f : frame) (label : string) (st : state) : state :=
  State (last_frame_data st) (keys st) (shown st ++ [(f, label)]) (printed st).

Definition print (line : string) (st : state) : state :=
  State (last_frame_data st) (keys st) (shown st) (printed st ++ [line]).

(** [cv2.waitKey(delay)]: the next pending value, or -1. *)
Definition waitKey (delay : Z) (st : state) : Z * state :=
  match keys st with
  | [] => ((-1)%Z, st)
  | k :: ks => (k, State (last_frame_data st) ks (shown st) (printed st))
  end.

(** [render_to_screen]: draw, label, show, then [cv2.waitKey(1)] whose
    value is dropped. *)
Definition render_to_screen (frame_data : frame) (ui_label : string)
    (st : state) : control * state :=
  match draw_frame frame_data with
  | None => (Raise, st)
  | Some _ => (Continue, (waitKey 1 (show frame_data ui_label st)).2)
  end.

(** [str.upper()] on ASCII letters; other bytes are left as they are. *)
Definition upper_ascii (c : ascii) : ascii :=
  let n := nat_of_ascii c in
  if (97 <=? n)%nat && (n <=? 122)%nat then ascii_of_nat (n - 32) else c.

Fixpoint upper (s : string) : string :=
  match s with
  | EmptyString => EmptyString
  | String c s' => String (upper_ascii c) (upper s')
  end.

Definition transition_label : string := "Transitioning...".
Definition signing_label (word : string) : string :=
  ("Signing: " ++ upper word)%string.

(** [i / 10] *)
Definition tenth (i : nat) : coord := Q2Qc (Z.of_nat i # 10).

(** [ord('q')] *)
Definition ord_q : Z := 113.

(** Phase 1, the loop [for i in range(1, 11)] of lines 94-99, over the
    values of [i] still to come. *)
Fixpoint transition (last first_frame_of_new_word : frame) (steps : list nat)
    (st : state) : control * state :=
  match steps with
  | [] => (Continue, st)
  | i :: steps' =>
      match calculate_smooth_frame last first_frame_of_new_word (tenth i) with
      | None => (Raise, st)
      | Some blend_frame =>
          match render_to_screen blend_frame transition_label st with
          | (Continue, st') =>
              transition last first_frame_of_new_word steps' st'
          | stop => stop
          end
      end
  end.

(** Phase 2, the loop of lines 103-109. *)
Fixpoint playback (word : string) (animation_sequence : sequence)
    (st : state) : control * state :=
  match animation_sequence with
  | [] => (Continue, st)
  | frame_data :: rest =>
      match render_to_screen frame_data (signing_label word) st with
      | (Continue, st1) =>
          let '(k, st2) := waitKey 33 (set_last frame_data st1) in
          if (Z.land k 255 =? ord_q)%Z then (Return, st2)
          else playback word rest st2
      | stop => stop
      end
  end.

(** The line printed for a word whose file does not exist (line 82). *)
Definition not_found_line (word : string) : string :=
  ("[ERROR] File not found: assets/" ++ word ++ ".json. Skipping.")%string.

(** The body of the loop over the words (lines 78-109). [assets] maps a
    word to the decoded content of [assets/<word>.json] when that file
    exists. *)
Definition play_word (assets : gmap string sequence) (word : string)
    (st : state) : control * state :=
  match assets !! word with
  | None => (Continue, print (not_found_line word) st)
  | Some animation_sequence =>
      let bridged :=
        match last_frame_data st with
        | None => (Continue, st)
        | Some last =>
            match animation_sequence !! 0%nat with
            | None => (Raise, st)
            | Some first_frame_of_new_word =>
                transition last first_frame_of_new_word (seq 1 10) st
            end
        end in
      match bridged with
      | (Continue, st') => playback word animation_sequence st'
      | stop => stop
      end
  end.

Fixpoint play_words (assets : gmap string sequence) (words_list : list string)
    (st : state) : control * state :=
  match words_list with
  | [] => (Continue, st)
  | word :: rest =>
      match play_word assets word st with
      | (Continue, st') => play_words assets rest st'
      | stop => stop
      end
  end.

Definition initial (pending_keys : list Z) : state := State None pending_keys [] [].

Definition play_sentence (assets : gmap string sequence)
    (words_list : list string) (pending_keys : list Z) : control * state :=
  play_words assets words_list (initial pending_keys).

(** ** Frames of the data model *)

(** A point of the data model has three coordinates. *)
Definition point_ok (p : point) : bool := (length p =? 3)%nat.

(** Every point under the four body parts has three coordinates. *)
Definition frame_ok (F : frame) : bool :=
  forallb (λ key, forallb point_ok (get F key)) BODY_PARTS.

(** Same point count under each body part, an absent part counting as
    an empty one. *)
Definition same_shape (A B : frame) : bool :=
  forallb (λ key, (length (get A key) =? length (get B key))%nat) BODY_PARTS.

(** No pending key is read as a quit request by line 108. *)
Definition no_quit (pending_keys : list Z) : bool :=
  forallb (λ k, negb (Z.land k 255 =? ord_q)%Z) pending_keys.

(** What [smooth_key] stores under [key], as a function of the two point
    lists. *)
Definition smooth_value (points_a points_b : list point) (t : coord)
  : option (list point) :=
  if negb (truthy points_a) || negb (truthy points_b) then
    Some (if truthy points_b then points_b else points_a)
  else smooth_points points_a points_b t.

(** The same on points of three coordinates, where no subscript raises. *)
Definition blend_points (points_a points_b : list point) (t : coord)
  : list point :=
  if negb (truthy points_a) || negb (truthy points_b) then
    if truthy points_b then points_b else points_a
  else zip_with (zip_with (λ a b, lerp a b t)) points_a points_b.

(** Whether the interpolation of two point lists at factor 1 is the second
    list: the first list is empty (the second is then taken as it is), or
    the second is non-empty and has no more points than the first (no point
    of it is cut away by [zip]). *)
Definition arrives (points_a points_b : list point) : bool :=
  negb (truthy points_a)
  || (truthy points_b && (length points_b <=? length points_a)%nat).

(** ** Reading the list of shown frames *)

(** [s.startswith(pre)] *)
Fixpoint startswith (s pre : string) {struct pre} : bool :=
  match pre, s with
  | EmptyString, _ => true
  | String a pre', String b s' => Ascii.eqb a b && startswith s' pre'
  | String _ _, EmptyString => false
  end.

(** A shown frame comes from phase 2 when its label is the one of line 104,
    which begins with "Signing: "; the label of phase 1 does not. *)
Definition is_signing (ev : frame * string) : bool :=
  startswith ev.2 "Signing: ".

(** The frame most recently shown by phase 2, if any. *)
Definition last_played (evs : list (frame * string)) : option frame :=
  fst <$> last (List.filter is_signing evs).

(** Nothing shown or printed is ever taken back. *)
Definition extends (st st' : state) : Prop :=
  (∃ more, shown st' = shown st ++ more) ∧
  (∃ lines, printed st' = printed st ++ lines).

(** [last_frame_data] is the frame most recently shown by phase 2. *)
Definition tracked (st : state) : Prop :=
  last_frame_data st = last_played (shown st).

(** Where a bridge frame [f] comes from, given the playlist and the frames
    [pre] shown before it. The playlist holds a word [w] with a clip, then
    words without a file, then a word [w'] with a clip; [pre] ends with the
    whole clip of [w] followed by the bridge frames already shown; and [f]
    is the interpolation, at the next tenth, from the last frame of the clip
    of [w] to the first frame of the clip of [w']. *)
Definition bridge_origin (assets : gmap string sequence)
    (words : list string) (pre : list (frame * string)) (f : frame) : Prop :=
  ∃ earlier before w skipped w' after clip from bs clip' to,
    words = before ++ w :: skipped ++ w' :: after ∧
    Forall (λ m, assets !! m = None) skipped ∧
    pre = earlier ++ map (λ g, (g, signing_label w)) clip
                  ++ map (λ b, (b, transition_label)) bs ∧
    assets !! w = Some clip ∧ last clip = Some from ∧
    assets !! w' = Some clip' ∧ clip' !! 0%nat = Some to ∧
    calculate_smooth_frame from to (tenth (S (length bs))) = Some f.

(** Every frame shown under the transition label has such an origin. *)
Definition bridged (assets : gmap string sequence) (words : list string)
    (evs : list (frame * string)) : Prop :=
  ∀ (n : nat) f, evs !! n = Some (f, transition_label) →
                 bridge_origin assets words (take n evs) f.

(** Between two words, [played] being the words gone through so far: a
    recorded last frame is the last frame of the clip of a word of [played]
    that has just been shown in full, the words after it having no file. *)
Definition settled (assets : gmap string sequence) (played : list string)
    (st : state) : Prop :=
  ∀ from, last_frame_data st = Some from →
    ∃ earlier before w skipped clip,
      played = before ++ w :: skipped ∧
      Forall (λ m, assets !! m = None) skipped ∧
      assets !! w = Some clip ∧ last clip = Some from ∧
      shown st = earlier ++ map (λ g, (g, signing_label w)) clip.

(** ** Example frames and clips *)

Definition pt (x y z : Z) : point := [Qc_of_Z x; Qc_of_Z y; Qc_of_Z z].

(** A frame in which nothing was detected, with no key at all. *)
Definition frame_none : frame := ∅.

(** A frame with a right hand of one point and the other parts empty, as
    dictionary_builder.py writes it. *)
Definition frame_right : frame :=
  {[ "f" := []; "p" := []; "l" := []; "r" := [pt 1 2 3] ]}.

(** Two frames with a pose of two points and a left hand of one point. *)
Definition frame_a : frame :=
  {[ "f" := []; "p" := [pt 0 0 0; pt 2 4 6]; "l" := [pt 1 1 1]; "r" := [] ]}.
Definition frame_b : frame :=
  {[ "f" := []; "p" := [pt 4 8 2; pt 2 0 0]; "l" := [pt 3 5 7]; "r" := [] ]}.

(** A frame whose pose has three points, one more than [frame_a]. *)
Definition frame_long : frame :=
  {[ "f" := []; "p" := [pt 4 8 2; pt 2 0 0; pt 9 9 9]; "l" := [pt 3 5 7];
     "r" := [] ]}.

(** A frame with a key that is not a body part. *)
Definition frame_extra : frame :=
  {[ "x" := [pt 7 7 7]; "p" := [pt 0 0 0; pt 2 4 6] ]}.

(** [1 / 2] *)
Definition half : coord := Q2Qc (1 # 2).

(** Two clips of five frames and a store holding them, together with a
    clip of no frame at all (what dictionary_builder.py writes for a video
    that cannot be read). *)
Definition clip_hello : sequence :=
  [frame_a; frame_b; frame_a; frame_b; frame_a].
Definition clip_sea : sequence :=
  [frame_b; frame_long; frame_right; frame_a; frame_b].
Definition assets_demo : gmap string sequence :=
  {[ "hello" := clip_hello; "sea" := clip_sea; "empty" := [] ]}.

(** A store of two clips of one frame each. *)
Definition assets_short : gmap string sequence :=
  {[ "hello" := [frame_a]; "sea" := [frame_b]; "empty" := [] ]}.

(** ** The dictionary builder (dictionary_builder.py) *)

(** One detected landmark: the fields [.x], [.y] and [.z] read by lines
    67-69. *)
Record landmark := Landmark {
  landmark_x : coord;
  landmark_y : coord;
  landmark_z : coord
}.

(** [self.FACE_INDICES_TO_KEEP] (lines 38-43), in the order of the source. *)
Definition FACE_INDICES_TO_KEEP : list nat :=
  [0; 13; 14; 17; 37; 39; 40; 61; 78; 81; 82; 95; 146; 178; 185; 191; 267;
   269; 270; 291; 308; 311; 312; 324; 375; 402; 409; 415;
   70; 63; 105; 66; 107; 336; 296; 334; 293; 300;
   33; 133; 362; 263]%nat.

(** [index in self.FACE_INDICES_TO_KEEP] *)
Definition kept (index : nat) : bool :=
  existsb (Nat.eqb index) FACE_INDICES_TO_KEEP.

(** Rounding of an exact number to the nearest integer, ties to the even
    one, as Python's [round] does. *)
Definition round_half_even (q : Q) : Z :=
  let f := Qfloor q in
  match Qcompare (q - inject_Z f)%Q (1 # 2)%Q with
  | Lt => f
  | Gt => (f + 1)%Z
  | Eq => if Z.even f then f else (f + 1)%Z
  end.

(** [round(v, 4)] *)
Definition round4 (v : coord) : coord :=
  Q2Qc (inject_Z (round_half_even (v * inject_Z 10000)%Q) / inject_Z 10000)%Q.

(** [[round(x, 4), round(y, 4), round(z, 4)]] of lines 67-71. *)
Definition rounded_point (lm : landmark) : point :=
  [round4 (landmark_x lm); round4 (landmark_y lm); round4 (landmark_z lm)].

(** The loop of lines 59-71 over [enumerate(landmarks_object.landmark)],
    from position [index] on. *)
Fixpoint convert_from (apply_face_filter : bool) (index : nat)
    (landmarks : list landmark) : list point :=
  match landmarks with
  | [] => []
  | lm :: rest =>
      if apply_face_filter && negb (kept index) then
        convert_from apply_face_filter (S index) rest
      else
        [round4 (landmark_x lm); round4 (landmark_y lm);
         round4 (landmark_z lm)]
        :: convert_from apply_face_filter (S index) rest
  end.

(** [convert_landmarks_to_list]; a part that was not detected is [None]. *)
Definition convert_landmarks_to_list (landmarks_object : option (list landmark))
    (apply_face_filter : bool) : list point :=
  match landmarks_object with
  | None => []
  | Some landmarks => convert_from apply_face_filter 0 landmarks
  end.

(** What the detector returns for one image of the video. *)
Record ai_results := AiResults {
  face_landmarks : option (list landmark);
  pose_landmarks : option (list landmark);
  left_hand_landmarks : option (list landmark);
  right_hand_landmarks : option (list landmark)
}.

(** The dictionary of lines 107-112. *)
Definition current_frame_data (res : ai_results) : frame :=
  {[ "f" := convert_landmarks_to_list (face_landmarks res) true;
     "p" := convert_landmarks_to_list (pose_landmarks res) false;
     "l" := convert_landmarks_to_list (left_hand_landmarks res) false;
     "r" := convert_landmarks_to_list (right_hand_landmarks res) false ]}.

(** [process_video_to_json]: [detections] holds the detector's results for
    the images read from the video, in order (none when the video cannot be
    opened); the list built by the loop of lines 93-114 is written to
    [assets/<word_name>.json], where [play_sentence] looks for it. *)
Definition process_video_to_json (word_name : string)
    (detections : list ai_results) (assets : gmap string sequence)
  : gmap string sequence :=
  <[word_name := map current_frame_data detections]> assets.

(** ** The display as a function of the playlist *)

(** The ten bridge frames from [from_frame] to [to_frame]. *)
Definition bridge (from_frame to_frame : frame) : option (list frame) :=
  mapM (λ i, calculate_smooth_frame from_frame to_frame (tenth i)) (seq 1 10).

(** The frames a session shows when no quit request comes, word after
    word: for each word with a file, the bridge from the last frame shown
    by phase 2 (if any) and then the clip; [None] when a subscript raises
    on the way. *)
Fixpoint display (assets : gmap string sequence) (words_list : list string)
    (last_frame : option frame) : option (list (frame * string)) :=
  match words_list with
  | [] => Some []
  | word :: rest =>
      match assets !! word with
      | None => display assets rest last_frame
      | Some clip =>
          b ← match last_frame with
              | None => Some []
              | Some from_frame =>
                  to_frame ← clip !! 0%nat; bridge from_frame to_frame
              end;
          evs ← display assets rest (from_option Some last_frame (last clip));
          Some (map (λ f, (f, transition_label)) b
                ++ map (λ f, (f, signing_label word)) clip ++ evs)
      end
  end.

(** The playlist words that have no file. *)
Definition without_file (assets : gmap string sequence)
    (words_list : list string) : list string :=
  List.filter (λ w, match assets !! w with None => true | Some _ => false end)
              words_list.

(** Every clip of a playlist word is non-empty and made of frames of the
    data model. *)
Definition clips_ok (assets : gmap string sequence)
    (words_list : list string) : Prop :=
  ∀ w clip, w ∈ words_list → assets !! w = Some clip →
            clip ≠ [] ∧ forallb frame_ok clip = true.

(** The clips of the playlist words that have a file, in playlist order. *)
Definition loaded_clips (assets : gmap string sequence)
    (words_list : list string) : list sequence :=
  omap (λ w, assets !! w) words_list.

(** Every frame of every clip of a playlist word is a frame of the data
    model. *)
Definition frames_ok (assets : gmap string sequence)
    (words_list : list string) : Prop :=
  ∀ w clip, w ∈ words_list → assets !! w = Some clip →
            forallb frame_ok clip = true.

(** Example detections: a pose of two landmarks, nothing else. *)
Definition detection_pose : ai_results :=
  AiResults None
    (Some [Landmark (Q2Qc (1 # 3)) (Q2Qc (1 # 2)) 0%Qc;
           Landmark (Q2Qc (2 # 3)) (Q2Qc (1 # 4)) 0%Qc])
    None None.

(** Another detection of a pose of two landmarks. *)
Definition detection_pose_b : ai_results :=
  AiResults None
    (Some [Landmark (Q2Qc (939 # 10000)) (Q2Qc (1 # 7)) 0%Qc;
           Landmark (Q2Qc (283 # 10000)) (Q2Qc (5 # 9)) (Q2Qc (-1 # 3))])
    None None.

(** ** Facts about the interpolator *)

Section Interpolator.
Implicit Types (A B R : gmap string (list (list Qc))).
Implicit Types (p q : list Qc) (ps qs : list (list Qc)) (t : Qc).

Lemma lerp_0 (a b : Qc) : lerp a b 0%Qc = a.
Proof. unfold lerp. ring. Qed.

Lemma lerp_1 (a b : Qc) : lerp a b 1%Qc = b.
Proof. unfold lerp. ring. Qed.

Lemma point_ok_length p : point_ok p = true ↔ length p = 3.
Proof. unfold point_ok. apply Nat.eqb_eq. Qed.

Lemma points_ok_Forall ps :
  forallb point_ok ps = true ↔ Forall (λ p, length p = 3) ps.
Proof.
  induction ps as [|p ps IH]; simpl.
  - split; [constructor | reflexivity].
  - rewrite andb_true_iff, Forall_cons, IH, point_ok_length. tauto.
Qed.

Lemma frame_ok_get F key :
  frame_ok F = true → key ∈ BODY_PARTS →
  Forall (λ p, length p = 3) (get F key).
Proof.
  unfold frame_ok. rewrite forallb_forall. intros H Hin.
  apply points_ok_Forall, H, list_elem_of_In, Hin.
Qed.

Lemma mapM_cons {X Y} (f : X → option Y) (x : X) (l : list X) :
  mapM f (x :: l) = (y ← f x; k ← mapM f l; Some (y :: k)).
Proof. reflexivity. Qed.

Lemma new_coords_closed p q t :
  length p = 3 → length q = 3 →
  new_coords p q t = Some (zip_with (λ a b, lerp a b t) p q).
Proof.
  destruct p as [|a0 [|a1 [|a2 [|? ?]]]]; try discriminate.
  destruct q as [|b0 [|b1 [|b2 [|? ?]]]]; try discriminate.
  reflexivity.
Qed.

Lemma smooth_points_closed ps qs t :
  Forall (λ p, length p = 3) ps → Forall (λ p, length p = 3) qs →
  smooth_points ps qs t = Some (zip_with (zip_with (λ a b, lerp a b t)) ps qs).
Proof.
  unfold smooth_points. intros Hps. revert qs.
  induction Hps as [|p ps Hp _ IH]; intros qs Hqs; [reflexivity|].
  destruct Hqs as [|q qs Hq Hqs]; [reflexivity|].
  change (zip (p :: ps) (q :: qs)) with ((p, q) :: zip ps qs).
  rewrite mapM_cons. change ((p, q).1) with p. change ((p, q).2) with q.
  rewrite (new_coords_closed _ _ _ Hp Hq), (IH qs Hqs). reflexivity.
Qed.

Lemma smooth_value_closed ps qs t :
  Forall (λ p, length p = 3) ps → Forall (λ p, length p = 3) qs →
  smooth_value ps qs t = Some (blend_points ps qs t).
Proof.
  intros Hps Hqs. unfold smooth_value, blend_points.
  destruct (negb (truthy ps) || negb (truthy qs)); [reflexivity|].
  by apply smooth_points_closed.
Qed.

Lemma smooth_key_value A B t key acc :
  smooth_key A B t key acc =
  (v ← smooth_value (get A key) (get B key) t; Some (<[key := v]> acc)).
Proof.
  unfold smooth_key, smooth_value.
  by destruct (negb (truthy (get A key)) || negb (truthy (get B key))).
Qed.

(** The dictionary returned by the loop over the keys: the keys visited
    hold their [smooth_value], the others are as in the dictionary the
    loop started from. *)
Lemma smooth_keys_lookup A B t ks : ∀ acc R,
  smooth_keys A B t ks acc = Some R →
  ∀ key, R !! key =
         if decide (key ∈ ks) then smooth_value (get A key) (get B key) t
         else acc !! key.
Proof.
  induction ks as [|k ks IH]; intros acc R HR key; simpl in HR.
  - injection HR as <-. rewrite decide_False; [done | set_solver].
  - rewrite smooth_key_value in HR.
    destruct (smooth_value (get A k) (get B k) t) as [v|] eqn:Hv;
      [|discriminate].
    simpl in HR. rewrite (IH _ _ HR key).
    destruct (decide (key ∈ ks)) as [Hin|Hnin].
    + rewrite decide_True; [done | set_solver].
    + destruct (decide (key = k)) as [->|Hne].
      * rewrite lookup_insert_eq, decide_True; [done | set_solver].
      * rewrite lookup_insert_ne, decide_False; [done | set_solver | done].
Qed.

Lemma smooth_keys_total A B t ks : ∀ acc,
  (∀ key, key ∈ ks → is_Some (smooth_value (get A key) (get B key) t)) →
  is_Some (smooth_keys A B t ks acc).
Proof.
  induction ks as [|k ks IH]; intros acc Hks; simpl; [by eexists|].
  rewrite smooth_key_value.
  destruct (Hks k) as [v ->]; [set_solver|]. simpl.
  apply IH. intros key Hin. apply Hks. set_solver.
Qed.

(** On frames of the data model the interpolator returns, and its result
    is known key by key. *)
Lemma calculate_smooth_frame_ok A B t :
  frame_ok A = true → frame_ok B = true →
  ∃ R, calculate_smooth_frame A B t = Some R ∧
       ∀ key, R !! key =
              if decide (key ∈ BODY_PARTS)
              then Some (blend_points (get A key) (get B key) t)
              else None.
Proof.
  intros HA HB. unfold calculate_smooth_frame.
  destruct (smooth_keys_total A B t BODY_PARTS ∅) as [R HR].
  { intros key Hin. rewrite smooth_value_closed; eauto using frame_ok_get. }
  exists R. split; [done|]. intros key.
  rewrite (smooth_keys_lookup _ _ _ _ _ _ HR key).
  destruct (decide (key ∈ BODY_PARTS)); [|apply lookup_empty].
  apply smooth_value_closed; eauto using frame_ok_get.
Qed.

End Interpolator.

(** ** Properties of the interpolator *)

Section Blend.
Implicit Types (A B R : gmap string (list (list Qc))).
Implicit Types (p q : list Qc) (ps qs : list (list Qc)) (t : Qc).

Lemma zip_lerp_0 p q :
  length p = length q → zip_with (λ a b, lerp a b 0%Qc) p q = p.
Proof.
  revert q. induction p as [|a p IH]; intros [|b q] Hlen;
    simplify_eq/=; [done|]. by rewrite lerp_0, IH.
Qed.

Lemma zip_lerp_1 p q :
  length p = length q → zip_with (λ a b, lerp a b 1%Qc) p q = q.
Proof.
  revert q. induction p as [|a p IH]; intros [|b q] Hlen;
    simplify_eq/=; [done|]. by rewrite lerp_1, IH.
Qed.

Lemma blend_points_0 ps qs :
  Forall (λ p, length p = 3) ps → Forall (λ p, length p = 3) qs →
  length ps = length qs → blend_points ps qs 0%Qc = ps.
Proof.
  intros Hps. revert qs. unfold blend_points.
  destruct Hps as [|p ps Hp Hps]; intros qs Hqs Hlen.
  { by destruct qs. }
  destruct Hqs as [|q qs Hq Hqs]; [done|]. simpl.
  rewrite zip_lerp_0 by congruence. f_equal.
  simpl in Hlen. apply Nat.succ_inj in Hlen.
  clear p q Hp Hq. revert qs Hqs Hlen.
  induction Hps as [|p ps Hp _ IH]; intros qs Hqs Hlen.
  { by destruct qs. }
  destruct Hqs as [|q qs Hq Hqs]; [done|]. simpl.
  rewrite zip_lerp_0 by congruence. f_equal. apply IH; [done|].
  simpl in Hlen. congruence.
Qed.

Lemma blend_points_1 ps qs :
  Forall (λ p, length p = 3) ps → Forall (λ p, length p = 3) qs →
  length ps = length qs → blend_points ps qs 1%Qc = qs.
Proof.
  intros Hps. revert qs. unfold blend_points.
  destruct Hps as [|p ps Hp Hps]; intros qs Hqs Hlen.
  { by destruct qs. }
  destruct Hqs as [|q qs Hq Hqs]; [done|]. simpl.
  rewrite zip_lerp_1 by congruence. f_equal.
  simpl in Hlen. apply Nat.succ_inj in Hlen.
  clear p q Hp Hq. revert qs Hqs Hlen.
  induction Hps as [|p ps Hp _ IH]; intros qs Hqs Hlen.
  { by destruct qs. }
  destruct Hqs as [|q qs Hq Hqs]; [done|]. simpl.
  rewrite zip_lerp_1 by congruence. f_equal. apply IH; [done|].
  simpl in Hlen. congruence.
Qed.

Lemma same_shape_get A B key :
  same_shape A B = true → key ∈ BODY_PARTS →
  length (get A key) = length (get B key).
Proof.
  unfold same_shape. rewrite forallb_forall. intros H Hin.
  apply Nat.eqb_eq, H, list_elem_of_In, Hin.
Qed.

(** A dictionary with exactly the four keys is determined by its four
    point lists. *)
Lemma frame_ext A B :
  dom A = list_to_set BODY_PARTS →
  (∀ key, A !! key = if decide (key ∈ BODY_PARTS)
                     then Some (get B key) else None) →
  dom B = list_to_set BODY_PARTS → A = B.
Proof.
  intros HA HAB HB. apply map_eq. intros key. rewrite HAB.
  destruct (decide (key ∈ BODY_PARTS)) as [Hin|Hnin].
  - assert (key ∈ dom B) as [v Hv]%elem_of_dom by (rewrite HB; set_solver).
    unfold get. by rewrite Hv.
  - symmetry. apply not_elem_of_dom. rewrite HB. set_solver.
Qed.

Lemma smooth_keys_dom A B t ks : ∀ acc R,
  smooth_keys A B t ks acc = Some R → dom R = list_to_set ks ∪ dom acc.
Proof.
  induction ks as [|k ks IH]; intros acc R HR; simpl in HR.
  - injection HR as <-. set_solver.
  - rewrite smooth_key_value in HR.
    destruct (smooth_value (get A k) (get B k) t) as [v|]; [|discriminate].
    simpl in HR. rewrite (IH _ _ HR), dom_insert_L. set_solver.
Qed.

Lemma calculate_smooth_frame_dom A B t R :
  calculate_smooth_frame A B t = Some R → dom R = list_to_set BODY_PARTS.
Proof.
  intros HR. rewrite (smooth_keys_dom _ _ _ _ _ _ HR). set_solver.
Qed.

Lemma blend_at_0 A B :
  frame_ok A = true → frame_ok B = true → same_shape A B = true →
  ∃ R, calculate_smooth_frame A B 0%Qc = Some R ∧
       ∀ key, R !! key = if decide (key ∈ BODY_PARTS)
                         then Some (get A key) else None.
Proof.
  intros HA HB Hshape.
  destruct (calculate_smooth_frame_ok A B 0%Qc HA HB) as (R & HR & L).
  exists R. split; [done|]. intros key. rewrite L.
  destruct (decide (key ∈ BODY_PARTS)); [|done].
  rewrite blend_points_0; eauto using frame_ok_get, same_shape_get.
Qed.

Lemma blend_at_1 A B :
  frame_ok A = true → frame_ok B = true → same_shape A B = true →
  ∃ R, calculate_smooth_frame A B 1%Qc = Some R ∧
       ∀ key, R !! key = if decide (key ∈ BODY_PARTS)
                         then Some (get B key) else None.
Proof.
  intros HA HB Hshape.
  destruct (calculate_smooth_frame_ok A B 1%Qc HA HB) as (R & HR & L).
  exists R. split; [done|]. intros key. rewrite L.
  destruct (decide (key ∈ BODY_PARTS)); [|done].
  rewrite blend_points_1; eauto using frame_ok_get, same_shape_get.
Qed.

End Blend.

(** ** Claims about the interpolator *)

(** C1. For two frames of the data model with the same point count under
    every body part (an absent part counting as empty),
    [calculate_smooth_frame] at factor 0 returns the start frame and at
    factor 1 the end frame: under each of the four keys the result holds the
    points of that frame, and the result is that very dictionary when the
    frame has exactly the four keys. Numbers are exact, so rounding does not
    appear. *)
Theorem blend_endpoints (A B : gmap string (list (list Qc))) :
  frame_ok A = true → frame_ok B = true → same_shape A B = true →
  ∃ R0 R1,
    calculate_smooth_frame A B 0%Qc = Some R0 ∧
    calculate_smooth_frame A B 1%Qc = Some R1 ∧
    (∀ key, key ∈ BODY_PARTS →
            R0 !! key = Some (get A key) ∧ R1 !! key = Some (get B key)) ∧
    (dom A = list_to_set BODY_PARTS → R0 = A) ∧
    (dom B = list_to_set BODY_PARTS → R1 = B).
Proof.
  intros HA HB Hshape.
  destruct (blend_at_0 A B HA HB Hshape) as (R0 & HR0 & L0).
  destruct (blend_at_1 A B HA HB Hshape) as (R1 & HR1 & L1).
  exists R0, R1. repeat split; try done.
  - rewrite L0. by rewrite decide_True.
  - rewrite L1. by rewrite decide_True.
  - intros Hdom. eapply frame_ext; eauto using calculate_smooth_frame_dom.
  - intros Hdom. eapply frame_ext; eauto using calculate_smooth_frame_dom.
Qed.

Lemma blend_endpoints_witness :
  frame_ok frame_a = true ∧ frame_ok frame_b = true ∧
  same_shape frame_a frame_b = true ∧
  ∃ R0 R1,
    calculate_smooth_frame frame_a frame_b 0%Qc = Some R0 ∧
    calculate_smooth_frame frame_a frame_b 1%Qc = Some R1 ∧
    (∀ key, key ∈ BODY_PARTS →
            R0 !! key = Some (get frame_a key) ∧
            R1 !! key = Some (get frame_b key)) ∧
    (dom frame_a = list_to_set BODY_PARTS → R0 = frame_a) ∧
    (dom frame_b = list_to_set BODY_PARTS → R1 = frame_b).
Proof.
  split; [reflexivity|]. split; [reflexivity|]. split; [reflexivity|].
  apply (blend_endpoints frame_a frame_b); reflexivity.
Defined.

(** C2, as stated, fails at factor 0: with the right hand absent from the
    start frame and present in the end frame, the result at factor 0 already
    holds the end frame's right hand; it is not empty. *)
Lemma snap_at_zero_not_absent :
  get frame_none "r" = [] ∧ get frame_right "r" ≠ [] ∧
  ∃ R, calculate_smooth_frame frame_none frame_right 0%Qc = Some R ∧
       R !! "r" = Some (get frame_right "r") ∧ get R "r" ≠ [].
Proof.
  split; [reflexivity|]. split; [discriminate|].
  eexists. split; [reflexivity|]. split; [reflexivity|]. discriminate.
Qed.

(** C2, amended. When the right hand is absent or empty in the start frame
    and non-empty in the end frame, the result holds the end frame's right
    hand for every factor, 0 included. *)
Theorem snap_to_target (A B : gmap string (list (list Qc))) (t : Qc) :
  frame_ok A = true → frame_ok B = true →
  get A "r" = [] → get B "r" ≠ [] →
  ∃ R, calculate_smooth_frame A B t = Some R ∧ R !! "r" = Some (get B "r").
Proof.
  intros HA HB Ha Hb.
  destruct (calculate_smooth_frame_ok A B t HA HB) as (R & HR & L).
  exists R. split; [done|]. rewrite L, decide_True by (unfold BODY_PARTS; set_solver).
  unfold blend_points. rewrite Ha. simpl. by destruct (get B "r").
Qed.

Lemma snap_to_target_witness :
  frame_ok frame_none = true ∧ frame_ok frame_right = true ∧
  get frame_none "r" = [] ∧ get frame_right "r" ≠ [] ∧
  ∃ R, calculate_smooth_frame frame_none frame_right 0%Qc = Some R ∧
       R !! "r" = Some (get frame_right "r").
Proof.
  split; [reflexivity|]. split; [reflexivity|]. split; [reflexivity|].
  split; [discriminate|].
  apply (snap_to_target frame_none frame_right 0%Qc);
    [reflexivity | reflexivity | reflexivity | discriminate].
Defined.

(** C8. When a body part is non-empty in both frames, the result under
    that key has as many points as the shorter of the two lists, and its
    point [i] is the interpolation of point [i] of the start frame with
    point [i] of the end frame; the points of the longer list beyond that
    length play no role. *)
Theorem blend_truncates (A B : gmap string (list (list Qc))) (t : Qc)
    (key : string) :
  frame_ok A = true → frame_ok B = true → key ∈ BODY_PARTS →
  get A key ≠ [] → get B key ≠ [] →
  ∃ R r,
    calculate_smooth_frame A B t = Some R ∧ R !! key = Some r ∧
    length r = length (get A key) `min` length (get B key) ∧
    (∀ i a b, get A key !! i = Some a → get B key !! i = Some b →
              r !! i = Some (zip_with (λ x y, lerp x y t) a b)) ∧
    r = blend_points (take (length r) (get A key))
                     (take (length r) (get B key)) t.
Proof.
  intros HA HB Hin Ha Hb.
  destruct (calculate_smooth_frame_ok A B t HA HB) as (R & HR & L).
  exists R, (blend_points (get A key) (get B key) t).
  split; [done|]. split; [by rewrite L, decide_True|].
  unfold blend_points.
  destruct (get A key) as [|a0 ps]; [done|].
  destruct (get B key) as [|b0 qs]; [done|].
  cbn [truthy negb orb]. split; [apply length_zip_with|].
  split.
  - intros i a b Hia Hib. rewrite lookup_zip_with, Hia, Hib. done.
  - rewrite length_zip_with.
    destruct (length (a0 :: ps) `min` length (b0 :: qs)) as [|n] eqn:Hn;
      [simpl in Hn; lia|].
    cbn [take truthy negb orb].
    change (a0 :: take n ps) with (take (S n) (a0 :: ps)).
    change (b0 :: take n qs) with (take (S n) (b0 :: qs)).
    rewrite zip_with_take_both' by lia. done.
Qed.

Lemma blend_truncates_witness :
  frame_ok frame_a = true ∧ frame_ok frame_long = true ∧
  "p" ∈ BODY_PARTS ∧ get frame_a "p" ≠ [] ∧ get frame_long "p" ≠ [] ∧
  ∃ R r,
    calculate_smooth_frame frame_a frame_long half = Some R ∧
    R !! "p" = Some r ∧
    length r = length (get frame_a "p") `min` length (get frame_long "p") ∧
    (∀ i a b, get frame_a "p" !! i = Some a →
              get frame_long "p" !! i = Some b →
              r !! i = Some (zip_with (λ x y, lerp x y half) a b)) ∧
    r = blend_points (take (length r) (get frame_a "p"))
                     (take (length r) (get frame_long "p")) half.
Proof.
  assert ("p" ∈ BODY_PARTS) as Hin by (apply (bool_decide_unpack _); vm_compute; exact I).
  split; [reflexivity|]. split; [reflexivity|]. split; [exact Hin|].
  split; [discriminate|]. split; [discriminate|].
  apply (blend_truncates frame_a frame_long half "p");
    [reflexivity | reflexivity | exact Hin | discriminate | discriminate].
Defined.

(** C10. Whatever the two dictionaries and the factor, the dictionary
    returned by [calculate_smooth_frame] has exactly the keys "f", "p", "l"
    and "r": each of the four is bound to a point list (empty when the part
    is missing on both sides) and any other key of the inputs is gone. On
    frames of the data model the function does return. *)
Theorem blend_key_set (A B : gmap string (list (list Qc))) (t : Qc) :
  (frame_ok A = true → frame_ok B = true →
   is_Some (calculate_smooth_frame A B t)) ∧
  ∀ R, calculate_smooth_frame A B t = Some R →
       dom R = {[ "f"; "p"; "l"; "r" ]} ∧
       (∀ key, key ∈ BODY_PARTS → is_Some (R !! key)) ∧
       (∀ key, key ∉ BODY_PARTS → R !! key = None) ∧
       (get A "f" = [] → get B "f" = [] → R !! "f" = Some []) ∧
       (get A "p" = [] → get B "p" = [] → R !! "p" = Some []) ∧
       (get A "l" = [] → get B "l" = [] → R !! "l" = Some []) ∧
       (get A "r" = [] → get B "r" = [] → R !! "r" = Some []).
Proof.
  split.
  { intros HA HB.
    destruct (calculate_smooth_frame_ok A B t HA HB) as (R & -> & _).
    by eexists. }
  intros R HR. pose proof (calculate_smooth_frame_dom _ _ _ _ HR) as Hdom.
  assert (∀ key, key ∈ BODY_PARTS →
                 get A key = [] → get B key = [] → R !! key = Some []) as Hnil.
  { intros key Hin Ha Hb.
    rewrite (smooth_keys_lookup _ _ _ _ _ _ HR key), decide_True by done.
    unfold smooth_value. by rewrite Ha, Hb. }
  split; [rewrite Hdom; unfold BODY_PARTS; set_solver|].
  split; [intros key Hin; apply elem_of_dom; rewrite Hdom; set_solver|].
  split; [intros key Hnin; apply not_elem_of_dom; rewrite Hdom; set_solver|].
  repeat split; apply Hnil; unfold BODY_PARTS; set_solver.
Qed.

Lemma blend_key_set_witness :
  frame_ok frame_extra = true ∧ frame_ok frame_none = true ∧
  ∃ R, calculate_smooth_frame frame_extra frame_none half = Some R ∧
       dom R = {[ "f"; "p"; "l"; "r" ]} ∧ R !! "x" = None ∧
       R !! "r" = Some [].
Proof.
  split; [reflexivity|]. split; [reflexivity|].
  destruct (blend_key_set frame_extra frame_none half) as [Hsome Hkeys].
  destruct (Hsome eq_refl eq_refl) as [R HR]. exists R.
  destruct (Hkeys R HR) as (Hdom & _ & Hout & _ & _ & _ & Hr).
  split; [exact HR|]. split; [exact Hdom|]. split.
  - apply Hout. apply (bool_decide_unpack _). vm_compute. exact I.
  - apply Hr; reflexivity.
Defined.

(** ** Facts about the renderer and the two loops *)

Section Player.
Implicit Types (F G R : gmap string (list (list Qc))).
Implicit Types (st : state) (w : string).

Lemma frame_ok_intro F :
  (∀ key, key ∈ BODY_PARTS → Forall (λ p, length p = 3) (get F key)) →
  frame_ok F = true.
Proof.
  intros H. unfold frame_ok. apply forallb_forall. intros key Hin.
  apply points_ok_Forall, H, list_elem_of_In, Hin.
Qed.

Lemma blend_points_ok (ps qs : list (list Qc)) (t : Qc) :
  Forall (λ p, length p = 3) ps → Forall (λ p, length p = 3) qs →
  Forall (λ p, length p = 3) (blend_points ps qs t).
Proof.
  intros Hps Hqs. unfold blend_points.
  destruct (negb (truthy ps) || negb (truthy qs)).
  { by destruct (truthy qs). }
  clear -Hps Hqs. revert qs Hqs.
  induction Hps as [|p ps Hp _ IH]; intros qs Hqs; [constructor|].
  destruct Hqs as [|q qs Hq Hqs]; [constructor|]. simpl. constructor.
  - rewrite length_zip_with. lia.
  - by apply IH.
Qed.

(** The interpolator maps frames of the data model to frames of the data
    model. *)
Lemma calculate_smooth_frame_frame_ok F G (t : Qc) R :
  frame_ok F = true → frame_ok G = true →
  calculate_smooth_frame F G t = Some R → frame_ok R = true.
Proof.
  intros HF HG HR.
  destruct (calculate_smooth_frame_ok F G t HF HG) as (R' & HR' & L).
  assert (R' = R) as -> by congruence.
  apply frame_ok_intro. intros key Hin. unfold get at 1.
  rewrite L, decide_True by done. simpl.
  apply blend_points_ok; eauto using frame_ok_get.
Qed.

Lemma draw_point_ok col (p : list Qc) :
  length p = 3 → is_Some (draw_point col p).
Proof.
  destruct p as [|x [|y [|z [|? ?]]]]; try discriminate. by eexists.
Qed.

Lemma draw_frame_ok F : frame_ok F = true → is_Some (draw_frame F).
Proof.
  intros HF. unfold draw_frame.
  assert (is_Some (mapM (λ kc : string * (Z * Z * Z),
            match F !! kc.1 with
            | Some points_list => mapM (draw_point kc.2) points_list
            | None => Some []
            end) BODY_PART_COLORS)) as [drawn ->]; [|by eexists].
  apply mapM_is_Some_2, Forall_forall. intros [key col] Hin. simpl.
  assert (key ∈ BODY_PARTS) as Hkey.
  { unfold BODY_PART_COLORS, BODY_PARTS in *. set_solver. }
  pose proof (frame_ok_get F key HF Hkey) as Hpts. unfold get in Hpts.
  destruct (F !! key) as [pts|]; [|by eexists]. simpl in Hpts.
  apply mapM_is_Some_2. eapply Forall_impl; [exact Hpts|].
  intros p Hp. by apply draw_point_ok.
Qed.

(** A frame of the data model is shown, and one pending key is consumed
    by the [waitKey(1)] of [render_to_screen]. *)
Lemma render_to_screen_ok F label st :
  frame_ok F = true →
  render_to_screen F label st =
  (Continue, State (last_frame_data st) (drop 1 (keys st))
                   (shown st ++ [(F, label)]) (printed st)).
Proof.
  intros HF. unfold render_to_screen.
  destruct (draw_frame_ok F HF) as [drawn ->].
  unfold waitKey, show. simpl. by destruct (keys st).
Qed.

Lemma no_quit_drop n ks : no_quit ks = true → no_quit (drop n ks) = true.
Proof.
  unfold no_quit. rewrite !forallb_forall. intros H k Hin.
  apply H, list_elem_of_In, (subseteq_drop n ks), list_elem_of_In, Hin.
Qed.

(** The bridge frames, by the formula of line 96, for the values of [i]
    in [steps]. *)
Lemma transition_run last first steps : ∀ st,
  frame_ok last = true → frame_ok first = true →
  ∃ bridge,
    mapM (λ i, calculate_smooth_frame last first (tenth i)) steps
      = Some bridge ∧
    forallb frame_ok bridge = true ∧
    transition last first steps st =
    (Continue, State (last_frame_data st) (drop (length steps) (keys st))
                     (shown st ++ map (λ b, (b, transition_label)) bridge)
                     (printed st)).
Proof.
  induction steps as [|i steps IH]; intros st Hl Hf.
  { exists []. simpl. rewrite app_nil_r, drop_0. by destruct st. }
  destruct (calculate_smooth_frame_ok last first (tenth i) Hl Hf)
    as (b & Hb & _).
  pose proof (calculate_smooth_frame_frame_ok _ _ _ _ Hl Hf Hb) as Hbok.
  destruct (IH (State (last_frame_data st) (drop 1 (keys st))
                      (shown st ++ [(b, transition_label)]) (printed st))
               Hl Hf) as (bs & Hbs & Hok & Hrun).
  exists (b :: bs). rewrite mapM_cons, Hb, Hbs. split; [done|].
  split; [simpl; by rewrite Hbok, Hok|].
  cbn [transition]. rewrite Hb, (render_to_screen_ok _ _ _ Hbok), Hrun.
  cbn [last_frame_data keys shown printed length map].
  by rewrite drop_drop, <-app_assoc.
Qed.

Lemma waitKey_no_quit delay st :
  no_quit (keys st) = true →
  (Z.land (waitKey delay st).1 255 =? ord_q)%Z = false ∧
  (waitKey delay st).2 =
    State (last_frame_data st) (drop 1 (keys st)) (shown st) (printed st).
Proof.
  unfold waitKey, no_quit. destruct st as [l [|k ks] s p]; simpl.
  - done.
  - rewrite andb_true_iff, negb_true_iff. intros [-> _]. by rewrite drop_0.
Qed.

(** Without a quit request the whole clip is shown, two pending keys
    being consumed per frame, and [last_frame_data] ends as the last
    frame of the clip. *)
Lemma playback_run w (clip : list (gmap string (list (list Qc)))) : ∀ st,
  forallb frame_ok clip = true → no_quit (keys st) = true →
  playback w clip st =
  (Continue,
   State (from_option Some (last_frame_data st) (last clip))
         (drop (2 * length clip) (keys st))
         (shown st ++ map (λ f, (f, signing_label w)) clip) (printed st)).
Proof.
  induction clip as [|f clip IH]; intros st Hok Hkeys.
  { simpl. rewrite app_nil_r, drop_0. by destruct st. }
  simpl in Hok. apply andb_true_iff in Hok as [Hf Hok].
  cbn [playback]. rewrite (render_to_screen_ok _ _ _ Hf).
  destruct (waitKey_no_quit 33
              (set_last f (State (last_frame_data st) (drop 1 (keys st))
                 (shown st ++ [(f, signing_label w)]) (printed st))))
    as [Hq Hst]; [by apply no_quit_drop|].
  destruct (waitKey 33 _) as [k st2]. simpl in Hq, Hst. rewrite Hq. subst st2.
  rewrite IH; [|done|simpl; apply no_quit_drop, no_quit_drop, Hkeys].
  cbn [last_frame_data keys shown printed length map].
  rewrite !drop_drop, <-app_assoc. f_equal. f_equal.
  - rewrite last_cons. by destruct (last clip).
  - f_equal. lia.
Qed.

End Player.

(** ** Claims about the bridge *)

Lemma tenth_10 : tenth 10 = 1%Qc.
Proof. apply Qc_is_canon. reflexivity. Qed.

(** C3, as stated, fails on the last element: when the arrival frame lacks
    a body part that the departure frame has, every bridge frame keeps the
    departure frame's points for it. Here all ten bridge frames are the
    departure frame itself, and the last one is not the arrival frame. *)
Lemma bridge_last_not_target :
  ∃ bridge,
    shown (transition frame_right frame_none (seq 1 10) (initial [])).2
      = map (λ b, (b, transition_label)) bridge ∧
    length bridge = 10 ∧
    last bridge = Some frame_right ∧
    last bridge ≠ Some frame_none ∧
    bridge !! 0%nat = Some frame_right ∧
    get frame_right "r" ≠ get frame_none "r".
Proof.
  exists (replicate 10 frame_right).
  split; [vm_compute; reflexivity|]. split; [reflexivity|].
  split; [reflexivity|]. split; [|split; [reflexivity | discriminate]].
  intros H. apply (f_equal (λ o, get (default ∅ o) "r")) in H. discriminate.
Qed.

Lemma zip_lerp_1_le (qs : list (list Qc)) : ∀ ps : list (list Qc),
  Forall (λ p, length p = 3) ps → Forall (λ p, length p = 3) qs →
  (length qs ≤ length ps)%nat →
  zip_with (zip_with (λ a b, lerp a b 1%Qc)) ps qs = qs.
Proof.
  induction qs as [|q qs IH]; intros ps Hps Hqs Hlen.
  { by destruct ps. }
  destruct Hps as [|p ps Hp Hps]; [simpl in Hlen; lia|].
  apply Forall_cons in Hqs as [Hq Hqs]. simpl.
  rewrite zip_lerp_1 by congruence. f_equal. apply IH; [done|done|].
  simpl in Hlen. lia.
Qed.

(** At factor 1 the interpolation of two point lists of the data model is
    the second list exactly when [arrives] says so. *)
Lemma blend_points_1_arrives (ps qs : list (list Qc)) :
  Forall (λ p, length p = 3) ps → Forall (λ p, length p = 3) qs →
  blend_points ps qs 1%Qc = qs ↔ arrives ps qs = true.
Proof.
  intros Hps Hqs. unfold blend_points, arrives.
  destruct ps as [|p ps]; [by destruct qs|].
  destruct qs as [|q qs]; [done|]. cbn [truthy negb orb andb].
  rewrite Nat.leb_le. split.
  - intros Heq. apply (f_equal length) in Heq.
    rewrite length_zip_with in Heq. lia.
  - intros Hlen. by apply zip_lerp_1_le.
Qed.

(** C3, amended. When a word with a clip comes after a frame of the data
    model was recorded as last frame, and the first frame of the clip is of
    the data model too, what [play_sentence] does for that word before
    playing the clip is to show exactly ten frames under the transition
    label, each consuming one pending key: the k-th of them (k from 1 to
    10) is the interpolation from the last frame to the first frame of the
    clip at factor k/10, so the last one is the interpolation at factor 1.
    Numbers being taken as exact (on the code's floats: up to rounding),
    that last frame holds the arrival frame's points under a key exactly
    when that body part is empty in the departure frame, or non-empty in the
    arrival frame with no more points than in the departure frame. *)
Theorem bridge_frames
    (assets : gmap string (list (gmap string (list (list Qc)))))
    (w : string) (st : state) (from to : gmap string (list (list Qc)))
    (clip : list (gmap string (list (list Qc)))) :
  assets !! w = Some (to :: clip) → last_frame_data st = Some from →
  frame_ok from = true → frame_ok to = true →
  ∃ bridge,
    play_word assets w st =
      playback w (to :: clip)
        (State (Some from) (drop 10 (keys st))
               (shown st ++ map (λ b, (b, transition_label)) bridge)
               (printed st)) ∧
    length bridge = 10 ∧
    (∀ k : nat, (1 ≤ k ≤ 10)%nat →
          calculate_smooth_frame from to (tenth k) = bridge !! (k - 1)) ∧
    last bridge = calculate_smooth_frame from to 1%Qc ∧
    ∃ R, last bridge = Some R ∧
         ∀ key, key ∈ BODY_PARTS →
                (R !! key = Some (get to key)
                 ↔ arrives (get from key) (get to key) = true).
Proof.
  intros Hw Hlast Hfrom Hto.
  destruct (transition_run from to (seq 1 10) st Hfrom Hto)
    as (bridge & Hbridge & _ & Hrun).
  exists bridge. split.
  { unfold play_word. rewrite Hw, Hlast. cbn [lookup list_lookup].
    rewrite Hrun, Hlast. reflexivity. }
  pose proof (length_mapM _ _ _ Hbridge) as Hlen. rewrite length_seq in Hlen.
  apply mapM_Some_1 in Hbridge.
  assert (∀ k : nat, (1 ≤ k ≤ 10)%nat →
            calculate_smooth_frame from to (tenth k) = bridge !! (k - 1))
    as Hk.
  { intros k Hk.
    destruct (bridge !! (k - 1)) as [b|] eqn:Hb.
    - eapply (Forall2_lookup_lr _ _ _ (k - 1) k b) in Hbridge; eauto.
      rewrite lookup_seq. split; lia.
    - apply lookup_ge_None in Hb. lia. }
  assert (last bridge = calculate_smooth_frame from to 1%Qc) as Hlastb.
  { rewrite last_lookup, <-Hlen, <-tenth_10. symmetry. apply (Hk 10). lia. }
  split; [lia|]. split; [exact Hk|]. split; [exact Hlastb|].
  destruct (calculate_smooth_frame_ok from to 1%Qc Hfrom Hto) as (R & HR & L).
  exists R. split; [congruence|]. intros key Hin.
  rewrite L, decide_True by done.
  rewrite <-(blend_points_1_arrives (get from key) (get to key))
    by eauto using frame_ok_get.
  split; [by intros [= ->] | by intros ->].
Qed.

Lemma bridge_frames_witness :
  assets_short !! "sea" = Some (frame_b :: []) ∧
  last_frame_data (State (Some frame_a) [] [(frame_a, "Signing: HELLO")] [])
    = Some frame_a ∧
  frame_ok frame_a = true ∧ frame_ok frame_b = true ∧
  ∃ bridge,
    play_word assets_short "sea"
      (State (Some frame_a) [] [(frame_a, "Signing: HELLO")] []) =
      playback "sea" (frame_b :: [])
        (State (Some frame_a) (drop 10 [])
               ([(frame_a, "Signing: HELLO")]
                ++ map (λ b, (b, transition_label)) bridge) []) ∧
    length bridge = 10 ∧
    (∀ k : nat, (1 ≤ k ≤ 10)%nat →
          calculate_smooth_frame frame_a frame_b (tenth k) = bridge !! (k - 1)) ∧
    last bridge = calculate_smooth_frame frame_a frame_b 1%Qc ∧
    ∃ R, last bridge = Some R ∧
         ∀ key, key ∈ BODY_PARTS →
                (R !! key = Some (get frame_b key)
                 ↔ arrives (get frame_a key) (get frame_b key) = true).
Proof.
  split; [reflexivity|]. split; [reflexivity|]. split; [reflexivity|].
  split; [reflexivity|].
  apply (bridge_frames assets_short "sea"
           (State (Some frame_a) [] [(frame_a, "Signing: HELLO")] [])
           frame_a frame_b []); reflexivity.
Defined.

(** ** Claims about whole sessions *)

(** C6. With clips of five frames for "hello" and for "sea" and no quit
    request among the pending keys, [play_sentence ["hello"; "sea"]] shows
    exactly twenty frames: the five frames of "hello" labelled
    "Signing: HELLO", then the ten bridge frames from the fifth frame of
    "hello" to the first frame of "sea" labelled "Transitioning...", then
    the five frames of "sea" labelled "Signing: SEA"; it prints nothing and
    ends by falling off the loop. *)
Theorem hello_sea_emission (assets : gmap string (list (gmap string (list (list Qc)))))
    (hello sea : list (gmap string (list (list Qc)))) (pending : list Z) :
  assets !! "hello" = Some hello → assets !! "sea" = Some sea →
  length hello = 5 → length sea = 5 →
  forallb frame_ok hello = true → forallb frame_ok sea = true →
  no_quit pending = true →
  ∃ h4 s0 bridge,
    hello !! 4%nat = Some h4 ∧ sea !! 0%nat = Some s0 ∧
    mapM (λ k, calculate_smooth_frame h4 s0 (tenth k)) (seq 1 10)
      = Some bridge ∧
    length bridge = 10 ∧
    (play_sentence assets ["hello"; "sea"] pending).1 = Continue ∧
    shown (play_sentence assets ["hello"; "sea"] pending).2 =
      (map (λ f, (f, "Signing: HELLO")) hello ++
       map (λ f, (f, "Transitioning...")) bridge ++
       map (λ f, (f, "Signing: SEA")) sea)%list ∧
    length (shown (play_sentence assets ["hello"; "sea"] pending).2) = 20 ∧
    printed (play_sentence assets ["hello"; "sea"] pending).2 = [].
Proof.
  intros Hhello Hsea Lh Ls Hh Hs Hq.
  destruct hello as [|h0 [|h1 [|h2 [|h3 [|h4 [|? ?]]]]]]; try discriminate.
  destruct sea as [|s0 sea']; [discriminate|].
  assert (frame_ok h4 = true) as Hh4.
  { simpl in Hh. repeat (apply andb_true_iff in Hh as [? Hh]). done. }
  assert (frame_ok s0 = true) as Hs0.
  { simpl in Hs. by apply andb_true_iff in Hs as [? _]. }
  destruct (transition_run h4 s0 (seq 1 10)
              (State (Some h4) (drop (2 * 5) pending)
                 (map (λ f, (f, signing_label "hello")) [h0; h1; h2; h3; h4])
                 []) Hh4 Hs0) as (bridge & Hbridge & _ & Hrun).
  pose proof (length_mapM _ _ _ Hbridge) as Hlen. rewrite length_seq in Hlen.
  assert (∃ l ks,
    play_sentence assets ["hello"; "sea"] pending =
    (Continue,
     State l ks
       (map (λ f, (f, "Signing: HELLO")) [h0; h1; h2; h3; h4] ++
        map (λ f, (f, "Transitioning...")) bridge ++
        map (λ f, (f, "Signing: SEA")) (s0 :: sea'))%list [])) as (l & ks & ->).
  { eexists _, _. unfold play_sentence, initial. cbn [play_words].
    unfold play_word. rewrite Hhello. cbn [last_frame_data].
    rewrite (playback_run _ _ (State None pending [] []) Hh Hq).
    cbn [last_frame_data keys shown printed last from_option length app].
    rewrite Hsea. cbn [lookup list_lookup]. rewrite Hrun.
    rewrite playback_run;
      [|done|cbn [keys]; by apply no_quit_drop, no_quit_drop].
    cbn [shown printed last_frame_data keys]. rewrite <-app_assoc.
    reflexivity. }
  exists h4, s0, bridge. cbn [fst snd shown printed].
  split; [done|]. split; [done|]. split; [done|]. split; [done|].
  split; [done|]. split; [done|]. split; [|done].
  rewrite !length_app, !length_map, <-Hlen, Ls. reflexivity.
Qed.

Lemma hello_sea_emission_witness :
  assets_demo !! "hello" = Some clip_hello ∧
  assets_demo !! "sea" = Some clip_sea ∧
  length clip_hello = 5 ∧ length clip_sea = 5 ∧
  forallb frame_ok clip_hello = true ∧ forallb frame_ok clip_sea = true ∧
  no_quit [] = true ∧
  ∃ h4 s0 bridge,
    clip_hello !! 4%nat = Some h4 ∧ clip_sea !! 0%nat = Some s0 ∧
    mapM (λ k, calculate_smooth_frame h4 s0 (tenth k)) (seq 1 10)
      = Some bridge ∧
    length bridge = 10 ∧
    (play_sentence assets_demo ["hello"; "sea"] []).1 = Continue ∧
    shown (play_sentence assets_demo ["hello"; "sea"] []).2 =
      (map (λ f, (f, "Signing: HELLO")) clip_hello ++
       map (λ f, (f, "Transitioning...")) bridge ++
       map (λ f, (f, "Signing: SEA")) clip_sea)%list ∧
    length (shown (play_sentence assets_demo ["hello"; "sea"] []).2) = 20 ∧
    printed (play_sentence assets_demo ["hello"; "sea"] []).2 = [].
Proof.
  split; [reflexivity|]. split; [reflexivity|]. split; [reflexivity|].
  split; [reflexivity|]. split; [reflexivity|]. split; [reflexivity|].
  split; [reflexivity|].
  apply (hello_sea_emission assets_demo clip_hello clip_sea []); reflexivity.
Defined.

(** ** The shape of every run of the two loops *)

Section Shapes.
Implicit Types (F G : gmap string (list (list Qc))).
Implicit Types (st : state) (w : string) (c : control).

Lemma render_to_screen_shape F label st :
  render_to_screen F label st = (Raise, st) ∨
  render_to_screen F label st =
    (Continue, State (last_frame_data st) (drop 1 (keys st))
                     (shown st ++ [(F, label)]) (printed st)).
Proof.
  unfold render_to_screen. destruct (draw_frame F); [right|by left].
  unfold waitKey, show. simpl. by destruct (keys st).
Qed.

(** Phase 1 shows a prefix of the bridge, each frame computed from the
    value of [i] at its position, and touches nothing else; it never
    executes [return]. *)
Lemma transition_shape from to steps : ∀ st c st',
  transition from to steps st = (c, st') →
  ∃ bs,
    shown st' = shown st ++ map (λ b, (b, transition_label)) bs ∧
    last_frame_data st' = last_frame_data st ∧
    printed st' = printed st ∧
    (∀ (i : nat) b, bs !! i = Some b →
       ∃ k, steps !! i = Some k ∧
            calculate_smooth_frame from to (tenth k) = Some b) ∧
    (c = Continue → length bs = length steps) ∧ c ≠ Return.
Proof.
  induction steps as [|k steps IH]; intros st c st' Hrun; cbn [transition] in Hrun.
  { injection Hrun as <- <-. exists []. simpl. rewrite app_nil_r.
    repeat split; try done. }
  destruct (calculate_smooth_frame from to (tenth k)) as [b|] eqn:Hb.
  2: { injection Hrun as <- <-. exists []. simpl. rewrite app_nil_r.
       repeat split; try done. }
  destruct (render_to_screen_shape b transition_label st) as [Hr|Hr];
    rewrite Hr in Hrun.
  { injection Hrun as <- <-. exists []. simpl. rewrite app_nil_r.
    repeat split; try done. }
  destruct (IH _ _ _ Hrun) as (bs & Hshown & Hlast & Hprinted & Hbs & Hlen & Hc).
  cbn [shown last_frame_data printed] in *.
  exists (b :: bs). rewrite Hshown, <-app_assoc. repeat split; try done.
  - intros [|i] b' Hi; simpl in Hi.
    + injection Hi as <-. by exists k.
    + by apply Hbs.
  - intros ->. simpl. by rewrite Hlen.
Qed.

(** Phase 2 shows a prefix of the clip, all of it when it falls through,
    and leaves in [last_frame_data] the last frame it has shown. *)
Lemma playback_shape w (clip : list (gmap string (list (list Qc)))) :
  ∀ st c st',
  playback w clip st = (c, st') →
  ∃ n : nat,
    (n ≤ length clip)%nat ∧
    shown st' = shown st ++ map (λ f, (f, signing_label w)) (take n clip) ∧
    last_frame_data st' =
      from_option Some (last_frame_data st) (last (take n clip)) ∧
    printed st' = printed st ∧
    (c = Continue → n = length clip).
Proof.
  induction clip as [|f clip IH]; intros st c st' Hrun; cbn [playback] in Hrun.
  { injection Hrun as <- <-. exists 0%nat. simpl. rewrite app_nil_r.
    repeat split; try done. }
  destruct (render_to_screen_shape f (signing_label w) st) as [Hr|Hr];
    rewrite Hr in Hrun.
  { injection Hrun as <- <-. exists 0%nat. simpl. rewrite app_nil_r.
    repeat split; try done. lia. }
  unfold waitKey, set_last in Hrun. cbn [keys last_frame_data shown printed] in Hrun.
  assert (∃ k ks,
    (if (Z.land k 255 =? ord_q)%Z
     then (Return, State (Some f) ks (shown st ++ [(f, signing_label w)])
                     (printed st))
     else playback w clip
            (State (Some f) ks (shown st ++ [(f, signing_label w)])
                   (printed st))) = (c, st')) as (k & ks & Hrun').
  { destruct (drop 1 (keys st)) as [|k ks]; eauto. }
  clear Hrun Hr. destruct (Z.land k 255 =? ord_q)%Z.
  { injection Hrun' as <- <-. exists 1%nat. cbn. rewrite take_0.
    repeat split; try done. lia. }
  destruct (IH _ _ _ Hrun') as (n & Hn & Hshown & Hlast & Hprinted & Hc).
  cbn [shown last_frame_data printed] in *.
  exists (S n). cbn [take map length]. rewrite Hshown, <-app_assoc.
  repeat split; try done.
  - lia.
  - rewrite Hlast, last_cons. by destruct (last (take n clip)).
  - intros ->. by rewrite Hc.
Qed.

End Shapes.

(** ** Facts about the loop over the words *)

Section Words.
Context (assets : gmap string (list (gmap string (list (list Qc))))).
Implicit Types (st : state) (w : string) (c : control).

Lemma extends_refl st : extends st st.
Proof. split; exists []; by rewrite app_nil_r. Qed.

Lemma extends_trans st1 st2 st3 :
  extends st1 st2 → extends st2 st3 → extends st1 st3.
Proof.
  intros [[m1 H1] [l1 G1]] [[m2 H2] [l2 G2]]. split.
  - exists (m1 ++ m2). by rewrite H2, H1, app_assoc.
  - exists (l1 ++ l2). by rewrite G2, G1, app_assoc.
Qed.

Lemma transition_extends from to steps st c st' :
  transition from to steps st = (c, st') → extends st st'.
Proof.
  intros (bs & Hs & _ & Hp & _)%transition_shape. split.
  - by eexists.
  - exists []. by rewrite app_nil_r.
Qed.

Lemma playback_extends w clip st c st' :
  playback w clip st = (c, st') → extends st st'.
Proof.
  intros (n & _ & Hs & _ & Hp & _)%playback_shape. split.
  - by eexists.
  - exists []. by rewrite app_nil_r.
Qed.

Lemma play_word_extends w st c st' :
  play_word assets w st = (c, st') → extends st st'.
Proof.
  unfold play_word. destruct (assets !! w) as [clip|].
  2: { intros [= <- <-]. split; [exists []; by rewrite app_nil_r|].
       by exists [not_found_line w]. }
  destruct (last_frame_data st) as [last|].
  2: { apply playback_extends. }
  destruct (clip !! 0%nat) as [first|].
  2: { intros [= <- <-]. apply extends_refl. }
  destruct (transition last first (seq 1 10) st) as [c1 st1] eqn:Ht.
  apply transition_extends in Ht.
  destruct c1.
  - intros Hp%playback_extends. by eapply extends_trans.
  - by intros [= <- <-].
  - by intros [= <- <-].
Qed.

Lemma play_words_extends ws : ∀ st c st',
  play_words assets ws st = (c, st') → extends st st'.
Proof.
  induction ws as [|w ws IH]; intros st c st'; cbn [play_words].
  { intros [= <- <-]. apply extends_refl. }
  destruct (play_word assets w st) as [c1 st1] eqn:Hw.
  apply play_word_extends in Hw. destruct c1.
  - intros Hws%IH. by eapply extends_trans.
  - by intros [= <- <-].
  - by intros [= <- <-].
Qed.

(** Words without a file only add their lines to the console. *)
Lemma play_words_skip missing ws : ∀ st,
  Forall (λ m, assets !! m = None) missing →
  play_words assets (missing ++ ws) st =
  play_words assets ws
    (State (last_frame_data st) (keys st) (shown st)
           (printed st ++ map not_found_line missing)).
Proof.
  induction missing as [|m missing IH]; intros st Hm.
  { simpl. rewrite app_nil_r. by destruct st. }
  apply Forall_cons in Hm as [Hm Hmissing].
  cbn [app play_words]. unfold play_word at 1. rewrite Hm.
  rewrite (IH _ Hmissing). unfold print.
  cbn [last_frame_data keys shown printed map]. by rewrite <-app_assoc.
Qed.

End Words.

(** C7. When the words before it have no file, a word whose clip is loaded
    starts the session's display with the first frame of its own clip under
    its own label: no bridge frame comes before it, and the console holds
    one line per skipped word. Without a quit request the whole clip is
    shown from the start. *)
Theorem first_clip_unbridged
    (assets : gmap string (list (gmap string (list (list Qc)))))
    (missing : list string) (w : string) (f0 : gmap string (list (list Qc)))
    (clip : list (gmap string (list (list Qc)))) (rest : list string)
    (pending : list Z) :
  Forall (λ m, assets !! m = None) missing →
  assets !! w = Some (f0 :: clip) → frame_ok f0 = true →
  (∃ more lines,
     shown (play_sentence assets (missing ++ w :: rest) pending).2
       = (f0, signing_label w) :: more ∧
     printed (play_sentence assets (missing ++ w :: rest) pending).2
       = map not_found_line missing ++ lines) ∧
  (forallb frame_ok clip = true → no_quit pending = true →
   ∃ more,
     shown (play_sentence assets (missing ++ w :: rest) pending).2
       = map (λ f, (f, signing_label w)) (f0 :: clip) ++ more).
Proof.
  intros Hmissing Hw Hf0. unfold play_sentence.
  rewrite (play_words_skip _ _ _ _ Hmissing). unfold initial.
  cbn [last_frame_data keys shown printed app play_words].
  set (st0 := State None pending [] (map not_found_line missing)).
  split.
  - destruct (play_word assets w st0) as [c1 st1] eqn:H1.
    assert (∃ more, shown st1 = (f0, signing_label w) :: more ∧
                    ∃ lines, printed st1 = printed st0 ++ lines)
      as (more1 & Hs1 & Hp1).
    { unfold play_word in H1. rewrite Hw in H1. cbn [st0 last_frame_data] in H1.
      cbn [playback] in H1. rewrite (render_to_screen_ok _ _ _ Hf0) in H1.
      destruct (waitKey 33 _) as [k st2] eqn:Hk.
      assert (shown st2 = [(f0, signing_label w)] ∧
              printed st2 = map not_found_line missing) as [Hs2 Hp2].
      { unfold waitKey, set_last in Hk. cbn in Hk.
        destruct (drop 1 pending); by injection Hk as <- <-. }
      destruct (Z.land k 255 =? ord_q)%Z.
      - injection H1 as <- <-. exists []. split; [done|].
        exists []. by rewrite app_nil_r.
      - apply playback_extends in H1 as [[more Hs] [lines Hp]].
        exists more. rewrite Hs, Hs2. split; [done|].
        exists lines. by rewrite Hp, Hp2. }
    destruct Hp1 as [lines1 Hp1].
    destruct c1; cbn [snd]; try by eauto.
    destruct (play_words assets rest st1) as [c2 st2] eqn:H2.
    apply play_words_extends in H2 as [[more Hs] [lines Hp]]. cbn [snd].
    exists (more1 ++ more), (lines1 ++ lines).
    rewrite Hs, Hs1, Hp, Hp1. by rewrite app_assoc.
  - intros Hclip Hq. unfold play_word. rewrite Hw. cbn [st0 last_frame_data].
    rewrite playback_run; [|simpl; by rewrite Hf0|done].
    destruct (play_words assets rest _) as [c2 st2] eqn:H2.
    apply play_words_extends in H2 as [[more Hs] _]. cbn [snd].
    exists more. by rewrite Hs.
Qed.

Lemma first_clip_unbridged_witness :
  Forall (λ m, assets_demo !! m = None) ["missing_word"] ∧
  assets_demo !! "hello" = Some (frame_a :: tail clip_hello) ∧
  frame_ok frame_a = true ∧
  (∃ more lines,
     shown (play_sentence assets_demo (["missing_word"] ++ "hello" :: []) []).2
       = (frame_a, signing_label "hello") :: more ∧
     printed (play_sentence assets_demo (["missing_word"] ++ "hello" :: []) []).2
       = map not_found_line ["missing_word"] ++ lines) ∧
  (forallb frame_ok (tail clip_hello) = true → no_quit [] = true →
   ∃ more,
     shown (play_sentence assets_demo (["missing_word"] ++ "hello" :: []) []).2
       = map (λ f, (f, signing_label "hello")) (frame_a :: tail clip_hello)
         ++ more).
Proof.
  assert (Forall (λ m, assets_demo !! m = None) ["missing_word"]) as Hm.
  { constructor; [reflexivity | constructor]. }
  split; [exact Hm|]. split; [reflexivity|]. split; [reflexivity|].
  apply (first_clip_unbridged assets_demo ["missing_word"] "hello" frame_a
           (tail clip_hello) [] []); [exact Hm | reflexivity | reflexivity].
Defined.

(** ** The last-frame invariant *)

Section Invariant.
Context (assets : gmap string (list (gmap string (list (list Qc))))).
Implicit Types (st : state) (w : string) (c : control).
Implicit Types (evs : list (gmap string (list (list Qc)) * string)).

Lemma map_fmap {X Y} (g : X → Y) (l : list X) : map g l = g <$> l.
Proof. reflexivity. Qed.

Lemma is_signing_signing (f : gmap string (list (list Qc))) w :
  is_signing (f, signing_label w) = true.
Proof. reflexivity. Qed.

Lemma is_signing_transition (f : gmap string (list (list Qc))) :
  is_signing (f, transition_label) = false.
Proof. reflexivity. Qed.

Lemma filter_signing w (l : list (gmap string (list (list Qc)))) :
  List.filter is_signing (map (λ f, (f, signing_label w)) l)
  = map (λ f, (f, signing_label w)) l.
Proof.
  induction l as [|f l IH]; [done|]. cbn [map List.filter].
  by rewrite is_signing_signing, IH.
Qed.

Lemma filter_transition (l : list (gmap string (list (list Qc)))) :
  List.filter is_signing (map (λ b, (b, transition_label)) l) = [].
Proof.
  induction l as [|f l IH]; [done|]. cbn [map List.filter].
  by rewrite is_signing_transition, IH.
Qed.

Lemma last_played_signing evs w (l : list (gmap string (list (list Qc)))) :
  last_played (evs ++ map (λ f, (f, signing_label w)) l)
  = from_option Some (last_played evs) (last l).
Proof.
  unfold last_played. rewrite List.filter_app, filter_signing, last_app.
  rewrite map_fmap, fmap_last. by destruct (last l).
Qed.

Lemma last_played_transition evs (l : list (gmap string (list (list Qc)))) :
  last_played (evs ++ map (λ b, (b, transition_label)) l) = last_played evs.
Proof.
  unfold last_played. by rewrite List.filter_app, filter_transition, app_nil_r.
Qed.

Lemma signing_is_not_transition w : signing_label w ≠ transition_label.
Proof. discriminate. Qed.

Lemma bridged_signing words evs w
    (l : list (gmap string (list (list Qc)))) :
  bridged assets words evs →
  bridged assets words (evs ++ map (λ f, (f, signing_label w)) l).
Proof.
  intros Hevs n f Hn. apply lookup_app_Some in Hn as [Hn|[Hle Hn]].
  - rewrite take_app_le by (apply lookup_lt_Some in Hn; lia). by apply Hevs.
  - rewrite map_fmap, list_lookup_fmap in Hn.
    destruct (l !! (n - length evs)%nat); simplify_eq/=.
Qed.

Lemma bridged_more words more evs :
  bridged assets words evs → bridged assets (words ++ more) evs.
Proof.
  intros Hevs n f Hn.
  destruct (Hevs n f Hn)
    as (earlier & before & w & skipped & w' & after & clip & from & bs
        & clip' & to & -> & H).
  exists earlier, before, w, skipped, w', (after ++ more), clip, from, bs,
         clip', to.
  split; [|exact H]. by rewrite <-!app_assoc, <-!app_comm_cons, <-app_assoc.
Qed.

Lemma bridged_transition played evs earlier before w skipped clip from
    w' clip' to (bs : list (gmap string (list (list Qc)))) :
  bridged assets (played ++ [w']) evs →
  played = before ++ w :: skipped →
  Forall (λ m, assets !! m = None) skipped →
  evs = earlier ++ map (λ g, (g, signing_label w)) clip →
  assets !! w = Some clip → last clip = Some from →
  assets !! w' = Some clip' → clip' !! 0%nat = Some to →
  (∀ (i : nat) b, bs !! i = Some b →
                  calculate_smooth_frame from to (tenth (S i)) = Some b) →
  bridged assets (played ++ [w'])
          (evs ++ map (λ b, (b, transition_label)) bs).
Proof.
  intros Hevs Hplayed Hskipped Hshape Hclip Hfrom Hclip' Hto Hbs n f Hn.
  apply lookup_app_Some in Hn as [Hn|[Hle Hn]].
  - rewrite take_app_le by (apply lookup_lt_Some in Hn; lia). by apply Hevs.
  - rewrite map_fmap, list_lookup_fmap in Hn.
    destruct (bs !! (n - length evs)%nat) as [b|] eqn:Hb; simplify_eq/=.
    rewrite take_app_ge by done.
    exists earlier, before, w, skipped, w', [], clip, from,
      (take (n - length (earlier ++ map (λ g, (g, signing_label w)) clip)) bs),
      clip', to.
    rewrite map_fmap, fmap_take, <-map_fmap, <-!app_assoc.
    repeat split; try done.
    rewrite length_take_le; [by apply Hbs|].
    apply lookup_lt_Some in Hb. lia.
Qed.

(** One word of the playlist keeps the three invariants, [played] growing
    by that word. *)
Lemma play_word_inv played w st c st' :
  play_word assets w st = (c, st') →
  tracked st → settled assets played st →
  bridged assets played (shown st) →
  tracked st' ∧ bridged assets (played ++ [w]) (shown st') ∧
  (c = Continue → settled assets (played ++ [w]) st').
Proof.
  intros Hrun Htr Hse Hbr. unfold play_word in Hrun.
  destruct (assets !! w) as [clip|] eqn:Hclip.
  2: { injection Hrun as <- <-. split; [done|].
       split; [by apply bridged_more|]. intros _ from Hfrom.
       destruct (Hse from Hfrom)
         as (earlier & before & w0 & skipped & clip0 & -> & Hsk & H).
       exists earlier, before, w0, (skipped ++ [w]), clip0.
       split; [by rewrite <-app_assoc|].
       split; [|exact H]. apply Forall_app. split; [done|].
       by constructor. }
  assert (∀ st1, tracked st1 →
            bridged assets (played ++ [w]) (shown st1) →
            (last_frame_data st1 = None ∨ clip ≠ []) →
            playback w clip st1 = (c, st') →
            tracked st' ∧ bridged assets (played ++ [w]) (shown st') ∧
            (c = Continue → settled assets (played ++ [w]) st')) as Hplay.
  { intros st1 Htr1 Hbr1 Hne (n & Hn & Hs & Hl & _ & Hc)%playback_shape.
    split; [|split].
    - unfold tracked. by rewrite Hl, Hs, last_played_signing, Htr1.
    - rewrite Hs. by apply bridged_signing.
    - intros Hcont. specialize (Hc Hcont). subst n.
      rewrite firstn_all in Hl, Hs. intros from Hfrom.
      exists (shown st1), played, w, [], clip.
      repeat split; try done.
      rewrite Hl in Hfrom. destruct (last clip) as [g|] eqn:Hlast; [done|].
      apply last_None in Hlast. destruct Hne as [Hnone|Hne]; [|done].
      simpl in Hfrom. congruence. }
  destruct (last_frame_data st) as [lastf|] eqn:Hlast.
  2: { eapply Hplay; eauto. by apply bridged_more. }
  destruct (clip !! 0%nat) as [first|] eqn:Hfirst.
  2: { injection Hrun as <- <-. split; [done|].
       split; [by apply bridged_more | done]. }
  destruct (transition lastf first (seq 1 10) st) as [c1 st1] eqn:Ht.
  apply transition_shape in Ht as (bs & Hs & Hl & _ & Hbs & _ & Hc1).
  destruct (Hse lastf Hlast)
    as (earlier & before & w0 & skipped & clip0 & Hplayed & Hsk & Hclip0
        & Hlast0 & Hshown).
  assert (tracked st1) as Htr1.
  { unfold tracked. rewrite Hl, Hs, last_played_transition. exact Htr. }
  assert (bridged assets (played ++ [w]) (shown st1)) as Hbr1.
  { rewrite Hs.
    apply (bridged_transition played _ earlier before w0 skipped clip0 lastf
             w clip first bs (bridged_more _ _ _ Hbr) Hplayed Hsk Hshown
             Hclip0 Hlast0 Hclip Hfirst).
    intros i b Hb. destruct (Hbs i b Hb) as (k & Hk & Hblend).
    apply lookup_seq in Hk as [-> _]. done. }
  destruct c1; [|done|by injection Hrun as <- <-].
  eapply Hplay; eauto. right. intros ->. done.
Qed.

Lemma play_words_inv ws : ∀ played st c st',
  play_words assets ws st = (c, st') →
  tracked st → settled assets played st →
  bridged assets played (shown st) →
  tracked st' ∧ bridged assets (played ++ ws) (shown st').
Proof.
  induction ws as [|w ws IH]; intros played st c st' Hrun Htr Hse Hbr;
    cbn [play_words] in Hrun.
  { injection Hrun as <- <-. by rewrite app_nil_r. }
  destruct (play_word assets w st) as [c1 st1] eqn:Hw.
  apply (play_word_inv played) in Hw as (Htr1 & Hbr1 & Hse1); try done.
  replace (played ++ w :: ws) with ((played ++ [w]) ++ ws)
    by (by rewrite <-app_assoc).
  destruct c1.
  - eapply IH; eauto.
  - injection Hrun as <- <-. split; [done|]. by apply bridged_more.
  - injection Hrun as <- <-. split; [done|]. by apply bridged_more.
Qed.

End Invariant.

(** C9. Whatever the store, the playlist and the keys, and however the
    session ends: [last_frame_data] is the frame most recently shown by
    phase 2; and every frame shown under the transition label is the
    interpolation from the last frame of the clip shown in full just before
    the bridge, which is the clip of the last word with a file before the
    current one, to the first frame of the clip of the current word, at the
    tenth given by its position in the bridge. A clip shown without a quit
    request leaves its own last frame in [last_frame_data]. Applied to the
    prefixes of a playlist, this holds after every word of a session. *)
Theorem last_frame_invariant
    (assets : gmap string (list (gmap string (list (list Qc)))))
    (words : list string) (pending : list Z) :
  last_frame_data (play_sentence assets words pending).2
    = last_played (shown (play_sentence assets words pending).2) ∧
  (∀ pre f post,
     shown (play_sentence assets words pending).2
       = pre ++ (f, transition_label) :: post →
     bridge_origin assets words pre f) ∧
  (∀ w clip st, clip ≠ [] → forallb frame_ok clip = true →
     no_quit (keys st) = true →
     (playback w clip st).1 = Continue ∧
     last_frame_data (playback w clip st).2 = last clip).
Proof.
  destruct (play_sentence assets words pending) as [c st] eqn:Hrun.
  unfold play_sentence in Hrun.
  apply (play_words_inv assets words []) in Hrun as [Htr Hbr];
    [|done|intros from Hfrom; discriminate|intros n f Hn; discriminate].
  split; [exact Htr|]. split.
  - intros pre f post Hshown. cbn [snd] in Hshown.
    specialize (Hbr (length pre) f). rewrite Hshown in Hbr.
    rewrite take_app_length in Hbr. apply Hbr.
    by rewrite list_lookup_middle.
  - intros w clip st0 Hne Hok Hq. rewrite playback_run by done.
    cbn [fst snd last_frame_data]. split; [done|].
    destruct (last clip) eqn:Hlast; [done|]. by apply last_None in Hlast.
Qed.

Lemma last_frame_invariant_witness :
  ∃ pre f post,
    shown (play_sentence assets_short ["hello"; "sea"] []).2
      = pre ++ (f, transition_label) :: post ∧
    pre = [(frame_a, signing_label "hello")] ∧
    bridge_origin assets_short ["hello"; "sea"] pre f ∧
    [frame_a] ≠ [] ∧ forallb frame_ok [frame_a] = true ∧
    no_quit (keys (initial [])) = true ∧
    last_frame_data (playback "hello" [frame_a] (initial [])).2
      = last [frame_a].
Proof.
  exists [(frame_a, signing_label "hello")],
         (default ∅ (calculate_smooth_frame frame_a frame_b (tenth 1))),
         (drop 2 (shown (play_sentence assets_short ["hello"; "sea"] []).2)).
  assert (shown (play_sentence assets_short ["hello"; "sea"] []).2
          = [(frame_a, signing_label "hello")] ++
            (default ∅ (calculate_smooth_frame frame_a frame_b (tenth 1)),
             transition_label)
            :: drop 2 (shown (play_sentence assets_short ["hello"; "sea"] []).2))
    as Hshown by (vm_compute; reflexivity).
  destruct (last_frame_invariant assets_short ["hello"; "sea"] [])
    as (_ & Horigin & Hclip).
  split; [exact Hshown|]. split; [reflexivity|].
  split; [exact (Horigin _ _ _ Hshown)|].
  split; [discriminate|]. split; [reflexivity|]. split; [reflexivity|].
  apply (Hclip "hello" [frame_a] (initial []));
    [discriminate | reflexivity | reflexivity].
Defined.

(** ** Quit requests and clips without frames *)

(** A quit request read by line 108, after a frame of phase 2, ends the
    session at once. *)
Lemma playback_quit (w : string) (f : gmap string (list (list Qc)))
    (clip : list (gmap string (list (list Qc)))) (st : state)
    (k1 k : Z) (ks : list Z) :
  frame_ok f = true → keys st = k1 :: k :: ks →
  Z.land k 255 = ord_q →
  playback w (f :: clip) st =
  (Return, State (Some f) ks (shown st ++ [(f, signing_label w)]) (printed st)).
Proof.
  intros Hf Hkeys Hq. cbn [playback]. rewrite (render_to_screen_ok _ _ _ Hf).
  unfold waitKey, set_last. cbn [keys last_frame_data shown printed].
  rewrite Hkeys. cbn [drop].
  by rewrite (proj2 (Z.eqb_eq _ _) Hq).
Qed.

(** The value of [cv2.waitKey(1)] is dropped by [render_to_screen]: a quit
    request delivered there is lost, in either phase. *)
Lemma render_to_screen_drops_key (F : gmap string (list (list Qc)))
    (label : string) (st : state) (k : Z) (ks : list Z) :
  frame_ok F = true → keys st = k :: ks →
  render_to_screen F label st =
  (Continue, State (last_frame_data st) ks (shown st ++ [(F, label)])
                   (printed st)).
Proof.
  intros HF Hkeys. by rewrite (render_to_screen_ok _ _ _ HF), Hkeys.
Qed.

(** A loaded clip without frames: with a last frame recorded, the subscript
    of line 93 raises; with none, the word passes without a trace. *)
Lemma play_word_empty_clip
    (assets : gmap string (list (gmap string (list (list Qc)))))
    (w : string) (st : state) :
  assets !! w = Some [] →
  play_word assets w st =
  (if last_frame_data st is Some _ then Raise else Continue, st).
Proof.
  intros Hw. unfold play_word. rewrite Hw.
  by destruct (last_frame_data st).
Qed.

(** C4, evaluated where the code departs from it. The third pending key is
    the value returned by [cv2.waitKey(1)] while the first bridge frame is
    displayed; it is [ord('q')]. The session does not stop: the nine other
    bridge frames and the clip of "sea" follow, and the loop ends normally.
    The same request delivered to the [waitKey(33)] of line 108 (second
    run) stops the session after the first frame. *)
Theorem quit_request_during_transition :
  (play_sentence assets_short ["hello"; "sea"] [-1; -1; 113]%Z).1 = Continue ∧
  map snd (shown (play_sentence assets_short ["hello"; "sea"]
                    [-1; -1; 113]%Z).2)
    = ["Signing: HELLO"] ++ replicate 10 "Transitioning..."
      ++ ["Signing: SEA"] ∧
  play_sentence assets_short ["hello"; "sea"] [-1; 113]%Z
    = (Return, State (Some frame_a) [] [(frame_a, "Signing: HELLO")] []).
Proof. split; [|split]; vm_compute; reflexivity. Qed.

(** C5, evaluated where the code departs from it. A clip without frames
    that follows a played word makes [play_sentence] raise [IndexError]:
    "sea" is never reached and nothing is printed (first run). The same
    clip at the head of the playlist passes silently (second run), whereas a
    word without a file is skipped with a printed line and the session goes
    on (third run). *)
Theorem empty_clip_after_word :
  play_sentence assets_short ["hello"; "empty"; "sea"] []
    = (Raise, State (Some frame_a) [] [(frame_a, "Signing: HELLO")] []) ∧
  play_sentence assets_short ["empty"; "hello"] []
    = (Continue, State (Some frame_a) [] [(frame_a, "Signing: HELLO")] []) ∧
  (play_sentence assets_short ["hello"; "nope"; "sea"] []).1 = Continue ∧
  length (shown (play_sentence assets_short ["hello"; "nope"; "sea"] []).2)
    = 12%nat ∧
  printed (play_sentence assets_short ["hello"; "nope"; "sea"] []).2
    = ["[ERROR] File not found: assets/nope.json. Skipping."].
Proof. repeat split; vm_compute; reflexivity. Qed.

(** ** Further properties of the interpolator *)

Section Reversal.
Implicit Types (A B R : gmap string (list (list Qc))).
Implicit Types (p q : list Qc) (ps qs : list (list Qc)) (t : Qc).

Lemma lerp_reverse (a b t : Qc) : lerp a b t = lerp b a (1 - t)%Qc.
Proof. unfold lerp. ring. Qed.

Lemma new_coords_reverse p q t : new_coords p q t = new_coords q p (1 - t)%Qc.
Proof.
  unfold new_coords. apply mapM_ext. intros i.
  destruct (p !! i), (q !! i); simpl; try done. by rewrite lerp_reverse.
Qed.

Lemma smooth_points_reverse ps : ∀ qs t,
  smooth_points ps qs t = smooth_points qs ps (1 - t)%Qc.
Proof.
  unfold smooth_points.
  induction ps as [|p ps IH]; intros [|q qs] t; try reflexivity.
  change (zip (p :: ps) (q :: qs)) with ((p, q) :: zip ps qs).
  change (zip (q :: qs) (p :: ps)) with ((q, p) :: zip qs ps).
  rewrite !mapM_cons. cbn [fst snd]. by rewrite new_coords_reverse, IH.
Qed.

Lemma smooth_value_reverse ps qs t :
  smooth_value ps qs t = smooth_value qs ps (1 - t)%Qc.
Proof.
  unfold smooth_value. destruct ps as [|p ps], qs as [|q qs]; try reflexivity.
  cbn [truthy negb orb]. apply smooth_points_reverse.
Qed.

Lemma smooth_keys_reverse A B t ks : ∀ acc,
  smooth_keys A B t ks acc = smooth_keys B A (1 - t)%Qc ks acc.
Proof.
  induction ks as [|k ks IH]; intros acc; [reflexivity|].
  cbn [smooth_keys]. rewrite !smooth_key_value, smooth_value_reverse.
  destruct (smooth_value (get B k) (get A k) (1 - t)%Qc); [|reflexivity].
  apply IH.
Qed.

End Reversal.

Lemma lerp_Q (a b t : Qc) : (this (lerp a b t) == a + (b - a) * t)%Q.
Proof. unfold lerp. simpl. rewrite !Qred_correct. reflexivity. Qed.

Lemma lerp_between (a b t : Qc) :
  (0 ≤ t)%Qc → (t ≤ 1)%Qc → (a ≤ b)%Qc →
  (a ≤ lerp a b t)%Qc ∧ (lerp a b t ≤ b)%Qc.
Proof.
  unfold Qcle. intros H0 H1 Hab. rewrite lerp_Q.
  change (this 0%Qc) with 0%Q in H0. change (this 1%Qc) with 1%Q in H1.
  destruct a as [a ?], b as [b ?], t as [t ?]. simpl in *. split; nra.
Qed.

(** With a factor between 0 and 1, every coordinate of an interpolated body
    part lies between the coordinate of the start frame and the coordinate
    of the end frame at the same place: the result never leaves the box
    spanned by the two frames. *)
Theorem blend_between (A B R : gmap string (list (list Qc))) (t : Qc)
    (key : string) (r : list (list Qc)) (i j : nat) (p : list Qc) (c : Qc) :
  frame_ok A = true → frame_ok B = true → key ∈ BODY_PARTS →
  get A key ≠ [] → get B key ≠ [] →
  (0 ≤ t)%Qc → (t ≤ 1)%Qc →
  calculate_smooth_frame A B t = Some R →
  R !! key = Some r → r !! i = Some p → p !! j = Some c →
  ∃ pa pb a b,
    get A key !! i = Some pa ∧ get B key !! i = Some pb ∧
    pa !! j = Some a ∧ pb !! j = Some b ∧
    ((a ≤ c)%Qc ∧ (c ≤ b)%Qc ∨ (b ≤ c)%Qc ∧ (c ≤ a)%Qc).
Proof.
  intros HA HB Hin Ha Hb H0 H1 HR Hr Hp Hc.
  destruct (calculate_smooth_frame_ok A B t HA HB) as (R' & HR' & L).
  assert (R' = R) as -> by congruence.
  rewrite L, decide_True in Hr by done. injection Hr as <-.
  unfold blend_points in Hp.
  destruct (get A key) as [|a0 ps]; [done|].
  destruct (get B key) as [|b0 qs]; [done|].
  cbn [truthy negb orb] in Hp.
  apply lookup_zip_with_Some in Hp as (pa & pb & -> & Hpa & Hpb).
  apply lookup_zip_with_Some in Hc as (a & b & -> & Hja & Hjb).
  exists pa, pb, a, b. repeat split; try done.
  destruct (Qclt_le_dec b a) as [Hlt|Hle].
  - right. rewrite lerp_reverse.
    assert (0 ≤ 1 - t)%Qc as H0'.
    { unfold Qcle in *. simpl. rewrite !Qred_correct.
      change (this 1%Qc) with 1%Q in H1. destruct t as [t ?]. simpl in *.
      lra. }
    assert (1 - t ≤ 1)%Qc as H1'.
    { unfold Qcle in *. simpl. rewrite !Qred_correct.
      change (this 0%Qc) with 0%Q in H0. destruct t as [t ?]. simpl in *.
      lra. }
    apply (lerp_between b a (1 - t)%Qc H0' H1'). by apply Qclt_le_weak.
  - left. by apply lerp_between.
Qed.

Lemma blend_between_witness :
  ∃ R r p c,
    calculate_smooth_frame frame_a frame_b half = Some R ∧
    R !! "p" = Some r ∧ r !! 0%nat = Some p ∧ p !! 1%nat = Some c ∧
    ∃ pa pb a b,
      get frame_a "p" !! 0%nat = Some pa ∧
      get frame_b "p" !! 0%nat = Some pb ∧
      pa !! 1%nat = Some a ∧ pb !! 1%nat = Some b ∧
      ((a ≤ c)%Qc ∧ (c ≤ b)%Qc ∨ (b ≤ c)%Qc ∧ (c ≤ a)%Qc).
Proof.
  assert ("p" ∈ BODY_PARTS) as Hin
    by (apply (bool_decide_unpack _); vm_compute; exact I).
  eexists _, _, _, _.
  split; [reflexivity|]. split; [reflexivity|]. split; [reflexivity|].
  split; [reflexivity|].
  eapply (blend_between frame_a frame_b _ half "p" _ 0 1);
    [reflexivity | reflexivity | exact Hin | discriminate | discriminate
    | discriminate | discriminate | reflexivity | reflexivity | reflexivity
    | reflexivity].
Defined.

Lemma zip_lerp_same (p : list Qc) (t : Qc) :
  zip_with (λ a b, lerp a b t) p p = p.
Proof.
  induction p as [|a p IH]; [done|]. simpl. rewrite IH. f_equal.
  unfold lerp. ring.
Qed.

Lemma blend_points_same (ps : list (list Qc)) (t : Qc) :
  blend_points ps ps t = ps.
Proof.
  unfold blend_points. destruct (negb (truthy ps) || negb (truthy ps)).
  { by destruct (truthy ps). }
  induction ps as [|p ps IH]; [done|]. simpl. by rewrite zip_lerp_same, IH.
Qed.

(** Interpolating a frame of the data model with itself gives its points
    back under each of the four keys, whatever the factor: a bridge between
    two identical frames does not move. *)
Theorem blend_same_frame (A : gmap string (list (list Qc))) (t : Qc) :
  frame_ok A = true →
  ∃ R, calculate_smooth_frame A A t = Some R ∧
       (∀ key, key ∈ BODY_PARTS → R !! key = Some (get A key)) ∧
       (dom A = list_to_set BODY_PARTS → R = A).
Proof.
  intros HA. destruct (calculate_smooth_frame_ok A A t HA HA) as (R & HR & L).
  assert (∀ key, R !! key = if decide (key ∈ BODY_PARTS)
                            then Some (get A key) else None) as L'.
  { intros key. rewrite L. destruct (decide _); [|done].
    by rewrite blend_points_same. }
  exists R. split; [done|]. split.
  - intros key Hin. by rewrite L', decide_True.
  - intros Hdom. eapply frame_ext; eauto using calculate_smooth_frame_dom.
Qed.

Lemma blend_same_frame_witness :
  frame_ok frame_long = true ∧
  ∃ R, calculate_smooth_frame frame_long frame_long half = Some R ∧
       (∀ key, key ∈ BODY_PARTS → R !! key = Some (get frame_long key)) ∧
       (dom frame_long = list_to_set BODY_PARTS → R = frame_long).
Proof.
  split; [reflexivity|]. apply (blend_same_frame frame_long half). reflexivity.
Defined.

(** ** When a subscript raises *)

Lemma new_coords_is_Some (p q : list Qc) (t : Qc) :
  is_Some (new_coords p q t) ↔ (3 ≤ length p)%nat ∧ (3 ≤ length q)%nat.
Proof.
  destruct p as [|a0 [|a1 [|a2 p]]], q as [|b0 [|b1 [|b2 q]]];
    unfold new_coords; cbn;
    (split;
     [intros [x Hx]; try discriminate Hx; split; lia
     |intros [H1 H2]; try lia; by eexists]).
Qed.

Lemma smooth_points_is_Some (ps qs : list (list Qc)) (t : Qc) :
  is_Some (smooth_points ps qs t) ↔
  ∀ (i : nat) pa pb, ps !! i = Some pa → qs !! i = Some pb →
                     (3 ≤ length pa)%nat ∧ (3 ≤ length pb)%nat.
Proof.
  unfold smooth_points. rewrite mapM_is_Some, Forall_lookup. split.
  - intros H i pa pb Hpa Hpb.
    apply (new_coords_is_Some pa pb t), (H i (pa, pb)).
    apply lookup_zip_with_Some. by exists pa, pb.
  - intros H i [pa pb] (pa' & pb' & [= <- <-] & Hpa & Hpb)%lookup_zip_with_Some.
    apply new_coords_is_Some. by eapply H.
Qed.

Lemma smooth_keys_is_Some (A B : gmap string (list (list Qc))) (t : Qc)
    (ks : list string) (acc : gmap string (list (list Qc))) :
  is_Some (smooth_keys A B t ks acc) ↔
  ∀ key, key ∈ ks → is_Some (smooth_value (get A key) (get B key) t).
Proof.
  split; [|apply smooth_keys_total].
  intros [R HR] key Hin.
  rewrite <-(decide_True (smooth_value (get A key) (get B key) t)
                         (acc !! key) Hin).
  rewrite <-(smooth_keys_lookup _ _ _ _ _ _ HR key).
  apply elem_of_dom. rewrite (smooth_keys_dom _ _ _ _ _ _ HR). set_solver.
Qed.

(** [calculate_smooth_frame] returns exactly when, under every body part
    that is non-empty in both frames, the points it pairs have at least
    three coordinates each; otherwise a subscript of line 60 raises. Points
    beyond the shorter list and body parts that are snapped are never
    looked into. *)
Theorem blend_returns_iff (A B : gmap string (list (list Qc))) (t : Qc) :
  is_Some (calculate_smooth_frame A B t) ↔
  ∀ key, key ∈ BODY_PARTS → get A key ≠ [] → get B key ≠ [] →
    ∀ (i : nat) pa pb, get A key !! i = Some pa → get B key !! i = Some pb →
                       (3 ≤ length pa)%nat ∧ (3 ≤ length pb)%nat.
Proof.
  unfold calculate_smooth_frame. rewrite smooth_keys_is_Some.
  split; intros H key Hin.
  - intros Ha Hb. specialize (H key Hin). unfold smooth_value in H.
    destruct (get A key) as [|a0 ps]; [done|].
    destruct (get B key) as [|b0 qs]; [done|].
    cbn [truthy negb orb] in H.
    exact (proj1 (smooth_points_is_Some _ _ _) H).
  - specialize (H key Hin). unfold smooth_value.
    destruct (get A key) as [|a0 ps]; [by eexists|].
    destruct (get B key) as [|b0 qs]; [by eexists|].
    cbn [truthy negb orb]. apply (proj2 (smooth_points_is_Some _ _ _)).
    by apply H.
Qed.

Lemma smooth_value_is_Some_reverse (ps qs : list (list Qc)) (t t' : Qc) :
  is_Some (smooth_value ps qs t) → is_Some (smooth_value qs ps t').
Proof.
  unfold smooth_value. destruct ps as [|p ps], qs as [|q qs];
    try (intros _; by eexists). cbn [truthy negb orb].
  unfold smooth_points. rewrite !mapM_is_Some, !Forall_lookup.
  intros H i [q' p'] (q'' & p'' & [= <- <-] & Hq & Hp)%lookup_zip_with_Some.
  assert (zip (p :: ps) (q :: qs) !! i = Some (p', q')) as Hi.
  { apply lookup_zip_with_Some. by exists p', q'. }
  specialize (H i (p', q') Hi). cbn [compose fst snd] in *.
  unfold new_coords in *. rewrite mapM_is_Some, Forall_forall in H.
  apply mapM_is_Some, Forall_forall. intros n Hn. specialize (H n Hn).
  cbn [compose] in *. by destruct (p' !! n), (q' !! n).
Qed.

Lemma smooth_value_snap (ps qs : list (list Qc)) (t : Qc) :
  ps = [] ∨ qs = [] →
  smooth_value ps qs t = Some (if truthy qs then qs else ps).
Proof.
  unfold smooth_value. intros [-> | ->]; [by destruct qs | by destruct ps].
Qed.

(** Exchanging the two frames. With numbers taken as exact, going from A
    to B by the factor t is going from B to A by 1 - t: same dictionary
    returned, or [IndexError] in both cases (on the code's floats the
    interpolated coordinates of the two calls agree up to rounding only).
    Whatever the arithmetic and whatever the two factors: the two calls
    raise on the same pairs of frames, and under a body part that is empty
    on one side both store the same list, that of the other side; the snap
    of lines 50-52 has no direction. *)
Theorem blend_reversal (A B : gmap string (list (list Qc))) (t : Qc) :
  calculate_smooth_frame A B t = calculate_smooth_frame B A (1 - t)%Qc ∧
  (∀ t', is_Some (calculate_smooth_frame A B t)
         ↔ is_Some (calculate_smooth_frame B A t')) ∧
  (∀ t' R R' key,
     calculate_smooth_frame A B t = Some R →
     calculate_smooth_frame B A t' = Some R' →
     key ∈ BODY_PARTS → get A key = [] ∨ get B key = [] →
     R !! key = R' !! key ∧
     R !! key = Some (if truthy (get B key) then get B key else get A key)).
Proof.
  split; [apply smooth_keys_reverse|]. split.
  - intros t'. unfold calculate_smooth_frame. rewrite !smooth_keys_is_Some.
    split; intros H key Hin; by eapply smooth_value_is_Some_reverse, H.
  - intros t' R R' key HR HR' Hin Hempty.
    rewrite (smooth_keys_lookup _ _ _ _ _ _ HR key),
            (smooth_keys_lookup _ _ _ _ _ _ HR' key), !decide_True by done.
    rewrite (smooth_value_snap _ _ t Hempty).
    rewrite (smooth_value_snap _ _ t') by tauto.
    split; [|done]. by destruct Hempty as [-> | ->];
      destruct (get A key), (get B key).
Qed.

Lemma blend_reversal_witness :
  ∃ R R',
    calculate_smooth_frame frame_right frame_a half = Some R ∧
    calculate_smooth_frame frame_a frame_right 0%Qc = Some R' ∧
    "r" ∈ BODY_PARTS ∧ (get frame_right "r" = [] ∨ get frame_a "r" = []) ∧
    R !! "r" = R' !! "r" ∧
    R !! "r" = Some (if truthy (get frame_a "r") then get frame_a "r"
                     else get frame_right "r").
Proof.
  assert ("r" ∈ BODY_PARTS) as Hin
    by (apply (bool_decide_unpack _); vm_compute; exact I).
  assert (get frame_right "r" = [] ∨ get frame_a "r" = []) as Hempty
    by (right; reflexivity).
  eexists _, _. split; [reflexivity|]. split; [reflexivity|].
  split; [exact Hin|]. split; [exact Hempty|].
  exact (proj2 (proj2 (blend_reversal frame_right frame_a half))
           0%Qc _ _ "r" eq_refl eq_refl Hin Hempty).
Defined.

Lemma draw_point_is_Some col (p : list Qc) :
  is_Some (draw_point col p) ↔ (2 ≤ length p)%nat.
Proof.
  destruct p as [|x [|y p]]; unfold draw_point; cbn;
    (split;
     [intros [c Hc]; try discriminate Hc; lia
     |intros H; try lia; by eexists]).
Qed.

Lemma draw_part_length (F : gmap string (list (list Qc))) (key : string)
    (col : Z * Z * Z) (cs : list circle) :
  match F !! key with
  | Some points_list => mapM (draw_point col) points_list
  | None => Some []
  end = Some cs →
  length cs = length (get F key).
Proof.
  unfold get. destruct (F !! key) as [pts|]; simpl.
  - intros H. symmetry. by eapply length_mapM.
  - by intros [= <-].
Qed.

(** The subscripts of [draw_frame] (lines 61-62). When every point under
    the four body parts has at least two coordinates, none of them raises
    [IndexError]; when some point has fewer, the frame is not drawn to the
    end. A frame drawn to the end has one circle per point of the four
    parts, whatever else the dictionary holds. [None] is the [IndexError]
    of a subscript; what [cv2.circle] may refuse is outside the model. *)
Theorem draw_frame_returns_iff (F : gmap string (list (list Qc))) :
  (is_Some (draw_frame F) ↔
   ∀ key p, key ∈ BODY_PARTS → p ∈ get F key → (2 ≤ length p)%nat) ∧
  (∀ cs, draw_frame F = Some cs →
         length cs = (length (get F "f") + length (get F "p")
                      + length (get F "l") + length (get F "r"))%nat).
Proof.
  split.
  - unfold draw_frame. split.
    + intros [cs Hcs] key p Hkey Hp.
      destruct (mapM _ BODY_PART_COLORS) as [drawn|] eqn:Hd; [|done].
      apply mapM_Some_1 in Hd.
      assert (∃ col, (key, col) ∈ BODY_PART_COLORS) as [col Hcol].
      { unfold BODY_PARTS, BODY_PART_COLORS in *.
        apply list_elem_of_In in Hkey. simpl in Hkey.
        destruct Hkey as [<-|[<-|[<-|[<-|[]]]]];
          eexists; apply list_elem_of_In; simpl; eauto 10. }
      apply list_elem_of_lookup in Hcol as [n Hn].
      destruct (Forall2_lookup_l _ _ _ _ _ Hd Hn) as (cs' & _ & Hpart).
      cbn [fst snd] in Hpart. unfold get in Hp.
      destruct (F !! key) as [pts|]; [|by apply elem_of_nil in Hp].
      simpl in Hp. apply (draw_point_is_Some col).
      assert (is_Some (mapM (draw_point col) pts)) as Hsome by by eexists.
      apply mapM_is_Some_1 in Hsome.
      by apply (proj1 (Forall_forall _ _) Hsome p).
    + intros H.
      assert (is_Some (mapM (λ kc : string * (Z * Z * Z),
                match F !! kc.1 with
                | Some points_list => mapM (draw_point kc.2) points_list
                | None => Some []
                end) BODY_PART_COLORS)) as [drawn ->]; [|by eexists].
      apply mapM_is_Some_2, Forall_forall. intros [key col] Hin. simpl.
      assert (key ∈ BODY_PARTS) as Hkey.
      { unfold BODY_PART_COLORS, BODY_PARTS in *. set_solver. }
      specialize (H key). unfold get in H.
      destruct (F !! key) as [pts|]; [|by eexists]. simpl in H.
      apply mapM_is_Some_2, Forall_forall. intros p Hp.
      apply draw_point_is_Some. by apply H.
  - intros cs. unfold draw_frame, BODY_PART_COLORS.
    rewrite !mapM_cons. cbn [fst snd].
    destruct (match F !! "f" with Some _ => _ | None => _ end) as [c1|] eqn:H1;
      [|done].
    destruct (match F !! "p" with Some _ => _ | None => _ end) as [c2|] eqn:H2;
      [|done].
    destruct (match F !! "l" with Some _ => _ | None => _ end) as [c3|] eqn:H3;
      [|done].
    destruct (match F !! "r" with Some _ => _ | None => _ end) as [c4|] eqn:H4;
      [|done].
    apply draw_part_length in H1, H2, H3, H4.
    intros [= <-]. cbn. rewrite ?length_app, ?length_nil.
    rewrite H1, H2, H3, H4. lia.
Qed.

Lemma blend_returns_iff_witness :
  is_Some (calculate_smooth_frame frame_a frame_long half) ∧
  ∀ key, key ∈ BODY_PARTS → get frame_a key ≠ [] → get frame_long key ≠ [] →
    ∀ (i : nat) pa pb,
      get frame_a key !! i = Some pa → get frame_long key !! i = Some pb →
      (3 ≤ length pa)%nat ∧ (3 ≤ length pb)%nat.
Proof.
  assert (is_Some (calculate_smooth_frame frame_a frame_long half)) as Hsome
    by (eexists; reflexivity).
  split; [exact Hsome|].
  exact (proj1 (blend_returns_iff frame_a frame_long half) Hsome).
Defined.

Lemma draw_frame_returns_iff_witness :
  (∀ key p, key ∈ BODY_PARTS → p ∈ get frame_long key → (2 ≤ length p)%nat) ∧
  ∃ cs, draw_frame frame_long = Some cs ∧ length cs = 4.
Proof.
  destruct (draw_frame_returns_iff frame_long) as [Hiff Hlen].
  split.
  - apply (proj1 Hiff). eexists. reflexivity.
  - eexists. split; [reflexivity|]. apply (Hlen _ eq_refl).
Defined.

(** ** Keys, quit requests and printed lines over a whole session *)

Section Session.
Context (assets : gmap string (list (gmap string (list (list Qc))))).
Implicit Types (st : state) (w : string) (c : control).

Lemma render_to_screen_keys F label st :
  no_quit (keys st) = true →
  no_quit (keys (render_to_screen F label st).2) = true.
Proof.
  intros Hq. destruct (render_to_screen_shape F label st) as [-> | ->];
    [done|]. by apply no_quit_drop.
Qed.

Lemma transition_keys from to steps : ∀ st,
  no_quit (keys st) = true →
  no_quit (keys (transition from to steps st).2) = true.
Proof.
  induction steps as [|i steps IH]; intros st Hq; cbn [transition]; [done|].
  destruct (calculate_smooth_frame from to (tenth i)) as [b|]; [|done].
  destruct (render_to_screen_shape b transition_label st) as [-> | ->];
    [done|]. apply IH. by apply no_quit_drop.
Qed.

(** Without a quit request among the pending keys, phase 2 does not
    execute [return]. *)
Lemma playback_keys w clip : ∀ st,
  no_quit (keys st) = true →
  (playback w clip st).1 ≠ Return ∧
  no_quit (keys (playback w clip st).2) = true.
Proof.
  induction clip as [|f clip IH]; intros st Hq; cbn [playback]; [done|].
  destruct (render_to_screen_shape f (signing_label w) st) as [-> | ->];
    [done|].
  set (st1 := State (last_frame_data st) (drop 1 (keys st))
                    (shown st ++ [(f, signing_label w)]) (printed st)).
  destruct (waitKey_no_quit 33 (set_last f st1)) as [Hk Hst];
    [by apply no_quit_drop|].
  destruct (waitKey 33 (set_last f st1)) as [k st2]. cbn [fst snd] in Hk, Hst.
  rewrite Hk. apply IH. subst st2. cbn [keys].
  by apply no_quit_drop, no_quit_drop.
Qed.

Lemma play_word_keys w st :
  no_quit (keys st) = true →
  (play_word assets w st).1 ≠ Return ∧
  no_quit (keys (play_word assets w st).2) = true.
Proof.
  intros Hq. unfold play_word. destruct (assets !! w) as [clip|]; [|done].
  destruct (last_frame_data st) as [lastf|]; [|by apply playback_keys].
  destruct (clip !! 0%nat) as [first|]; [|done].
  pose proof (transition_keys lastf first (seq 1 10) st Hq) as Ht.
  destruct (transition lastf first (seq 1 10) st) as [c1 st1] eqn:Hrun.
  apply transition_shape in Hrun as (_ & _ & _ & _ & _ & _ & Hc1).
  destruct c1; [by apply playback_keys|done|done].
Qed.

Lemma play_words_keys ws : ∀ st,
  no_quit (keys st) = true → (play_words assets ws st).1 ≠ Return.
Proof.
  induction ws as [|w ws IH]; intros st Hq; cbn [play_words]; [done|].
  destruct (play_word_keys w st Hq) as [Hc Hk].
  destruct (play_word assets w st) as [[] st1]; try done. by apply IH.
Qed.

(** When phase 2 executes [return], the frame shown last is a frame of the
    clip under the word's label, and it is the recorded last frame. *)
Lemma playback_return w clip : ∀ st st',
  playback w clip st = (Return, st') →
  ∃ pre f, shown st' = pre ++ [(f, signing_label w)] ∧
           last_frame_data st' = Some f ∧ f ∈ clip.
Proof.
  induction clip as [|f clip IH]; intros st st' Hrun; cbn [playback] in Hrun;
    [done|].
  destruct (render_to_screen_shape f (signing_label w) st) as [Hr|Hr];
    rewrite Hr in Hrun; [done|].
  destruct (waitKey 33 _) as [k st2] eqn:Hk.
  assert (shown st2 = shown st ++ [(f, signing_label w)] ∧
          last_frame_data st2 = Some f) as [Hs2 Hl2].
  { unfold waitKey, set_last in Hk. cbn in Hk.
    destruct (drop 1 (keys st)); by injection Hk as <- <-. }
  destruct (Z.land k 255 =? ord_q)%Z.
  - injection Hrun as <-. exists (shown st), f. repeat split; try done.
    apply list_elem_of_here.
  - destruct (IH _ _ Hrun) as (pre & g & Hs & Hl & Hg).
    exists pre, g. repeat split; try done. by apply list_elem_of_further.
Qed.

Lemma play_words_return ws : ∀ st st',
  play_words assets ws st = (Return, st') →
  ∃ w clip pre f,
    w ∈ ws ∧ assets !! w = Some clip ∧ f ∈ clip ∧
    shown st' = pre ++ [(f, signing_label w)] ∧ last_frame_data st' = Some f.
Proof.
  induction ws as [|w ws IH]; intros st st' Hrun; cbn [play_words] in Hrun;
    [done|].
  destruct (play_word assets w st) as [c1 st1] eqn:Hw. destruct c1.
  - destruct (IH _ _ Hrun) as (w' & clip & pre & f & Hin & H).
    exists w', clip, pre, f. split; [by apply list_elem_of_further | exact H].
  - injection Hrun as <-. unfold play_word in Hw.
    destruct (assets !! w) as [clip|] eqn:Hclip; [|done].
    assert (∃ st0, playback w clip st0 = (Return, st1)) as [st0 Hp].
    { destruct (last_frame_data st) as [lastf|]; [|by eexists].
      destruct (clip !! 0%nat) as [first|]; [|done].
      destruct (transition lastf first (seq 1 10) st) as [c1 st0] eqn:Ht.
      apply transition_shape in Ht as (_ & _ & _ & _ & _ & _ & Hc1).
      destruct c1; [by eexists|done|done]. }
    apply playback_return in Hp as (pre & f & Hs & Hl & Hf).
    exists w, clip, pre, f. repeat split; try done. apply list_elem_of_here.
  - done.
Qed.

(** The lines printed: one per word without a file gone through, in
    playlist order, and nothing else. *)
Lemma play_words_printed ws : ∀ st c st',
  play_words assets ws st = (c, st') →
  ∃ n : nat,
    printed st' = printed st
                  ++ map not_found_line (take n (without_file assets ws)) ∧
    (c = Continue → printed st' = printed st
                      ++ map not_found_line (without_file assets ws)).
Proof.
  induction ws as [|w ws IH]; intros st c st' Hrun; cbn [play_words] in Hrun.
  { injection Hrun as <- <-. exists 0%nat. simpl. by rewrite app_nil_r. }
  destruct (play_word assets w st) as [c1 st1] eqn:Hw.
  unfold without_file. cbn [List.filter]. fold (without_file assets ws).
  unfold play_word in Hw. destruct (assets !! w) as [clip|] eqn:Hclip.
  - assert (printed st1 = printed st) as Hp1.
    { destruct (last_frame_data st) as [lastf|].
      - destruct (clip !! 0%nat) as [first|]; [|by injection Hw as <- <-].
        destruct (transition lastf first (seq 1 10) st) as [c0 st0] eqn:Ht.
        apply transition_shape in Ht as (_ & _ & _ & Hp0 & _).
        destruct c0; [|by injection Hw as <- <-..].
        apply playback_shape in Hw as (_ & _ & _ & _ & Hp & _). congruence.
      - by apply playback_shape in Hw as (_ & _ & _ & _ & Hp & _). }
    destruct c1.
    + destruct (IH _ _ _ Hrun) as (n & Hn & Hc). rewrite Hp1 in Hn, Hc.
      by exists n.
    + injection Hrun as <- <-. exists 0%nat. rewrite take_0. simpl.
      rewrite app_nil_r. done.
    + injection Hrun as <- <-. exists 0%nat. rewrite take_0. simpl.
      rewrite app_nil_r. done.
  - injection Hw as <- <-. destruct (IH _ _ _ Hrun) as (n & Hn & Hc).
    unfold print in Hn, Hc. cbn [printed] in Hn, Hc.
    exists (S n). cbn [take map]. split.
    + rewrite Hn, <-app_assoc. done.
    + intros Hcont. rewrite (Hc Hcont), <-app_assoc. done.
Qed.

End Session.

(** A session returns early only on a quit request, and right after a
    frame of phase 2: when [play_sentence] executes [return], some pending
    key had the low byte of [ord('q')], and the frame shown last is a frame
    of the clip of a playlist word under that word's label, which is also
    the recorded last frame. No bridge frame is ever the last one shown by
    a session that was quit. *)
Theorem early_return_only_on_quit
    (assets : gmap string (list (gmap string (list (list Qc)))))
    (words : list string) (pending : list Z) (st' : state) :
  play_sentence assets words pending = (Return, st') →
  no_quit pending = false ∧
  ∃ w clip pre f,
    w ∈ words ∧ assets !! w = Some clip ∧ f ∈ clip ∧
    shown st' = pre ++ [(f, signing_label w)] ∧ last_frame_data st' = Some f.
Proof.
  intros Hrun. split.
  - destruct (no_quit pending) eqn:Hq; [|done].
    pose proof (play_words_keys assets words (initial pending) Hq) as Hc.
    unfold play_sentence in Hrun. by rewrite Hrun in Hc.
  - by apply (play_words_return assets words (initial pending)).
Qed.

Lemma early_return_only_on_quit_witness :
  play_sentence assets_short ["hello"; "sea"] [-1; 369]%Z
    = (Return, State (Some frame_a) [] [(frame_a, "Signing: HELLO")] []) ∧
  no_quit [-1; 369]%Z = false ∧
  ∃ w clip pre f,
    w ∈ ["hello"; "sea"] ∧ assets_short !! w = Some clip ∧ f ∈ clip ∧
    shown (State (Some frame_a) [] [(frame_a, "Signing: HELLO")] [])
      = pre ++ [(f, signing_label w)] ∧
    last_frame_data (State (Some frame_a) [] [(frame_a, "Signing: HELLO")] [])
      = Some f.
Proof.
  assert (play_sentence assets_short ["hello"; "sea"] [-1; 369]%Z
    = (Return, State (Some frame_a) [] [(frame_a, "Signing: HELLO")] []))
    as Hrun by (vm_compute; reflexivity).
  split; [exact Hrun|].
  exact (early_return_only_on_quit assets_short ["hello"; "sea"] [-1; 369]%Z
           _ Hrun).
Defined.

(** The console after a session: in any case the lines of the first few
    playlist words without a file, in playlist order, and nothing else;
    when the loop runs to its end, one line for each of them. *)
Theorem printed_lines
    (assets : gmap string (list (gmap string (list (list Qc)))))
    (words : list string) (pending : list Z) :
  (∃ n : nat,
     printed (play_sentence assets words pending).2
       = map not_found_line (take n (without_file assets words))) ∧
  ((play_sentence assets words pending).1 = Continue →
   printed (play_sentence assets words pending).2
     = map not_found_line (without_file assets words)).
Proof.
  unfold play_sentence.
  destruct (play_words assets words (initial pending)) as [c st'] eqn:Hrun.
  destruct (play_words_printed assets words _ _ _ Hrun) as (n & Hn & Hc).
  split; [by exists n|]. exact Hc.
Qed.

Lemma printed_lines_witness :
  (play_sentence assets_demo ["nope"; "hello"; "gone"] []).1 = Continue ∧
  printed (play_sentence assets_demo ["nope"; "hello"; "gone"] []).2
    = map not_found_line (without_file assets_demo ["nope"; "hello"; "gone"]) ∧
  without_file assets_demo ["nope"; "hello"; "gone"] = ["nope"; "gone"].
Proof.
  assert ((play_sentence assets_demo ["nope"; "hello"; "gone"] []).1 = Continue)
    as Hc by (vm_compute; reflexivity).
  split; [exact Hc|]. split; [|reflexivity].
  exact (proj2 (printed_lines assets_demo ["nope"; "hello"; "gone"] []) Hc).
Defined.

(** ** The display of a whole session *)

Section Display.
Context (assets : gmap string (list (gmap string (list (list Qc))))).
Implicit Types (st : state) (w : string) (c : control).

Lemma frame_ok_elem (clip : list (gmap string (list (list Qc))))
    (f : gmap string (list (list Qc))) :
  forallb frame_ok clip = true → f ∈ clip → frame_ok f = true.
Proof.
  intros H Hf. apply list_elem_of_In in Hf.
  by apply (proj1 (forallb_forall _ _) H).
Qed.

Lemma playback_no_raise w clip : ∀ st,
  forallb frame_ok clip = true → (playback w clip st).1 ≠ Raise.
Proof.
  induction clip as [|f clip IH]; intros st Hok; cbn [playback]; [done|].
  simpl in Hok. apply andb_true_iff in Hok as [Hf Hok].
  rewrite (render_to_screen_ok _ _ _ Hf).
  destruct (waitKey 33 _) as [k st2].
  destruct (Z.land k 255 =? ord_q)%Z; [done|]. by apply IH.
Qed.

Lemma play_word_no_raise w clip st :
  assets !! w = Some clip → clip ≠ [] → forallb frame_ok clip = true →
  (∀ f, last_frame_data st = Some f → frame_ok f = true) →
  (play_word assets w st).1 ≠ Raise ∧
  (∀ f, last_frame_data (play_word assets w st).2 = Some f →
        frame_ok f = true).
Proof.
  intros Hw Hne Hok Hlast. unfold play_word. rewrite Hw.
  assert (∀ st1, (∀ f, last_frame_data st1 = Some f → frame_ok f = true) →
            (playback w clip st1).1 ≠ Raise ∧
            (∀ f, last_frame_data (playback w clip st1).2 = Some f →
                  frame_ok f = true)) as Hplay.
  { intros st1 Hl1. split; [by apply playback_no_raise|].
    destruct (playback w clip st1) as [c st'] eqn:Hrun.
    apply playback_shape in Hrun as (n & _ & _ & Hl & _).
    intros f Hf. cbn [snd] in Hf. rewrite Hl in Hf.
    destruct (last (take n clip)) as [g|] eqn:Hg; simpl in Hf.
    - injection Hf as <-. apply (frame_ok_elem clip); [done|].
      by apply (subseteq_take n clip), last_Some_elem_of.
    - by apply Hl1. }
  destruct (last_frame_data st) as [lastf|] eqn:Hl.
  2: { apply Hplay. intros f Hf. congruence. }
  destruct clip as [|first clip']; [done|]. cbn [lookup list_lookup].
  assert (frame_ok first = true) as Hfirst.
  { simpl in Hok. by apply andb_true_iff in Hok as [? _]. }
  destruct (transition_run lastf first (seq 1 10) st (Hlast _ eq_refl) Hfirst)
    as (bs & _ & _ & ->).
  apply Hplay. cbn [last_frame_data]. intros f Hf. apply Hlast. congruence.
Qed.

Lemma play_words_no_raise ws : ∀ st,
  clips_ok assets ws →
  (∀ f, last_frame_data st = Some f → frame_ok f = true) →
  (play_words assets ws st).1 ≠ Raise.
Proof.
  induction ws as [|w ws IH]; intros st Hclips Hlast; cbn [play_words];
    [done|].
  assert (clips_ok assets ws) as Hclips'.
  { intros w' clip Hin. apply Hclips. by apply list_elem_of_further. }
  destruct (assets !! w) as [clip|] eqn:Hw.
  - destruct (Hclips w clip (list_elem_of_here _ _) Hw) as [Hne Hok].
    destruct (play_word_no_raise w clip st Hw Hne Hok Hlast) as [Hc Hl].
    destruct (play_word assets w st) as [[] st1]; try done. by apply IH.
  - unfold play_word. rewrite Hw. by apply IH.
Qed.

(** Without a quit request and on frames of the data model, the loop over
    the words shows what [display] computes and prints one line per word
    without a file; it raises exactly when [display] is undefined. *)
Lemma play_words_display ws : ∀ st,
  frames_ok assets ws →
  (∀ f, last_frame_data st = Some f → frame_ok f = true) →
  no_quit (keys st) = true →
  match display assets ws (last_frame_data st) with
  | Some evs =>
      ∃ l ks, play_words assets ws st =
              (Continue,
               State l ks (shown st ++ evs)
                     (printed st
                      ++ map not_found_line (without_file assets ws)))
  | None => (play_words assets ws st).1 = Raise
  end.
Proof.
  induction ws as [|w ws IH]; intros st Hok Hlast Hq.
  { simpl. exists (last_frame_data st), (keys st). rewrite !app_nil_r.
    by destruct st. }
  assert (frames_ok assets ws) as Hok'.
  { intros w' clip Hin. apply Hok. by apply list_elem_of_further. }
  cbn [display play_words]. unfold without_file. cbn [List.filter].
  fold (without_file assets ws). unfold play_word.
  destruct (assets !! w) as [clip|] eqn:Hw.
  2: { specialize (IH (print (not_found_line w) st) Hok' Hlast Hq).
       cbn [print last_frame_data shown printed] in IH.
       destruct (display assets ws (last_frame_data st)) as [evs|]; [|done].
       destruct IH as (l & ks & ->). exists l, ks.
       cbn [map]. by rewrite <-app_assoc. }
  pose proof (Hok w clip (list_elem_of_here _ _) Hw) as Hclip.
  assert (∀ st1 pre,
    last_frame_data st1 = last_frame_data st → no_quit (keys st1) = true →
    shown st1 = shown st ++ pre → printed st1 = printed st →
    match display assets ws (from_option Some (last_frame_data st) (last clip))
    with
    | Some evs =>
        ∃ l ks,
          match playback w clip st1 with
          | (Continue, st') => play_words assets ws st'
          | stop => stop
          end =
          (Continue,
           State l ks
             (shown st ++ pre ++ map (λ f, (f, signing_label w)) clip ++ evs)
             (printed st ++ map not_found_line (without_file assets ws)))
    | None =>
        (match playback w clip st1 with
         | (Continue, st') => play_words assets ws st'
         | stop => stop
         end).1 = Raise
    end) as Hplay.
  { intros st1 pre Hl1 Hq1 Hs1 Hp1. rewrite (playback_run _ _ _ Hclip Hq1).
    set (st2 := State _ _ _ _).
    assert (∀ f, last_frame_data st2 = Some f → frame_ok f = true) as Hl2.
    { subst st2. cbn [last_frame_data]. rewrite Hl1. intros f Hf.
      destruct (last clip) as [g|] eqn:Hg; simpl in Hf.
      - injection Hf as <-. apply (frame_ok_elem clip); [done|].
        by apply last_Some_elem_of.
      - by apply Hlast. }
    assert (no_quit (keys st2) = true) as Hq2.
    { subst st2. cbn [keys]. by apply no_quit_drop. }
    specialize (IH st2 Hok' Hl2 Hq2). subst st2.
    cbn [last_frame_data shown printed] in IH. rewrite Hl1 in IH.
    rewrite Hl1. revert IH. destruct (display assets ws _) as [evs|]; intros IH; [|done].
    destruct IH as (l & ks & ->). exists l, ks.
    by rewrite Hs1, Hp1, <-!app_assoc. }
  destruct (last_frame_data st) as [lastf|] eqn:Hl.
  - destruct (clip !! 0%nat) as [first|] eqn:Hfirst; [|done].
    assert (frame_ok first = true) as Hf1.
    { apply (frame_ok_elem clip); [done|]. by eapply list_elem_of_lookup_2. }
    destruct (transition_run lastf first (seq 1 10) st (Hlast _ eq_refl) Hf1)
      as (bs & Hbs & _ & Hrun).
    unfold bridge. cbn [mbind option_bind]. rewrite Hbs.
    set (st1 := State (last_frame_data st) (drop (length (seq 1 10)) (keys st))
                  (shown st ++ map (λ b, (b, transition_label)) bs)
                  (printed st)) in Hrun.
    rewrite Hrun. cbn [mbind option_bind].
    assert (last_frame_data st1 = Some lastf) as H1 by exact Hl.
    assert (no_quit (keys st1) = true) as H2 by (by apply no_quit_drop).
    specialize (Hplay st1 _ H1 H2 eq_refl eq_refl).
    revert Hplay. destruct (display assets ws _) as [evs|]; intros Hplay;
      [|done].
    cbn [mbind option_bind]. done.
  - specialize (Hplay st [] Hl Hq (eq_sym (app_nil_r _)) eq_refl).
    cbn [mbind option_bind].
    revert Hplay. destruct (display assets ws _) as [evs|]; intros Hplay;
      [|done].
    cbn [mbind option_bind map app]. done.
Qed.

End Display.

Lemma display_length
    (assets : gmap string (list (gmap string (list (list Qc)))))
    (ws : list string) : ∀ last_frame,
  clips_ok assets ws →
  (∀ f, last_frame = Some f → frame_ok f = true) →
  ∃ evs, display assets ws last_frame = Some evs ∧
         length evs =
           (sum_list (length <$> loaded_clips assets ws)
            + 10 * (length (loaded_clips assets ws)
                    - (if last_frame is Some _ then 0 else 1)))%nat.
Proof.
  induction ws as [|w ws IH]; intros last_frame Hclips Hlast.
  { exists []. by destruct last_frame. }
  assert (clips_ok assets ws) as Hclips'.
  { intros w' clip Hin. apply Hclips. by apply list_elem_of_further. }
  cbn [display]. unfold loaded_clips. cbn [omap list_omap].
  fold (loaded_clips assets ws).
  destruct (assets !! w) as [clip|] eqn:Hw; [|by apply IH].
  destruct (Hclips w clip (list_elem_of_here _ _) Hw) as [Hne Hok].
  destruct (last clip) as [g|] eqn:Hg; [|by apply last_None in Hg].
  assert (frame_ok g = true) as Hgok.
  { apply (frame_ok_elem clip); [done|]. by apply last_Some_elem_of. }
  destruct (IH (Some g) Hclips') as (evs & Hevs & Hlen).
  { by intros f [= <-]. }
  cbn [from_option]. rewrite Hevs.
  assert (∃ b, match last_frame with
               | None => Some []
               | Some from_frame =>
                   to_frame ← clip !! 0%nat; bridge from_frame to_frame
               end = Some b ∧
               length b = if last_frame is Some _ then 10%nat else 0%nat)
    as (b & -> & Hb).
  { destruct last_frame as [lastf|]; [|by exists []].
    destruct clip as [|first clip']; [done|]. cbn [lookup list_lookup].
    assert (frame_ok first = true) as Hf1.
    { simpl in Hok. by apply andb_true_iff in Hok as [? _]. }
    destruct (transition_run lastf first (seq 1 10) (initial [])
                (Hlast _ eq_refl) Hf1) as (bs & Hbs & _ & _).
    exists bs. cbn [mbind option_bind]. split; [exact Hbs|].
    apply length_mapM in Hbs. by rewrite <-Hbs. }
  eexists. split; [reflexivity|].
  rewrite !length_app, !length_map, Hlen, Hb. cbn [fmap list_fmap sum_list
    sum_list_with length].
  unfold id. destruct last_frame; lia.
Qed.

(** A playlist whose clips are all non-empty and made of frames of the data
    model never makes [play_sentence] raise, whatever keys are pressed and
    whichever words have no file. *)
Theorem session_never_raises
    (assets : gmap string (list (gmap string (list (list Qc)))))
    (words : list string) (pending : list Z) :
  clips_ok assets words →
  (play_sentence assets words pending).1 ≠ Raise.
Proof.
  intros Hclips. unfold play_sentence.
  by apply play_words_no_raise.
Qed.

Lemma clips_ok_demo : clips_ok assets_demo ["hello"; "nope"; "sea"].
Proof.
  intros w clip Hin Hw. apply list_elem_of_In in Hin. simpl in Hin.
  destruct Hin as [<-|[<-|[<-|[]]]]; vm_compute in Hw;
    first [discriminate Hw | injection Hw as <-];
    (split; [discriminate | reflexivity]).
Defined.

Lemma session_never_raises_witness :
  clips_ok assets_demo ["hello"; "nope"; "sea"] ∧
  (play_sentence assets_demo ["hello"; "nope"; "sea"] [113; 113]%Z).1 ≠ Raise.
Proof.
  split; [exact clips_ok_demo|].
  apply (session_never_raises assets_demo ["hello"; "nope"; "sea"]
           [113; 113]%Z clips_ok_demo).
Defined.

(** The whole display of a session without quit request, on frames of the
    data model: for each playlist word with a file, in order, the ten
    bridge frames from the last frame of the previous clip (none before the
    first clip) and then the clip, words without a file contributing a
    printed line and no frame. [play_sentence] shows exactly these frames
    and runs to the end of the playlist when no subscript raises, and
    raises otherwise (a clip without frames after a clip with frames). *)
Theorem session_display
    (assets : gmap string (list (gmap string (list (list Qc)))))
    (words : list string) (pending : list Z) :
  frames_ok assets words → no_quit pending = true →
  (∀ evs, display assets words None = Some evs →
     (play_sentence assets words pending).1 = Continue ∧
     shown (play_sentence assets words pending).2 = evs ∧
     printed (play_sentence assets words pending).2
       = map not_found_line (without_file assets words)) ∧
  (display assets words None = None →
     (play_sentence assets words pending).1 = Raise).
Proof.
  intros Hok Hq. unfold play_sentence.
  pose proof (play_words_display assets words (initial pending) Hok) as H.
  cbn [initial last_frame_data keys shown printed] in H.
  specialize (H ltac:(by intros f [=]) Hq).
  destruct (display assets words None) as [evs'|].
  - destruct H as (l & ks & ->). split; [|done].
    by intros evs [= <-].
  - split; [done|]. by intros _.
Qed.

Lemma frames_ok_short : frames_ok assets_short ["hello"; "empty"; "sea"].
Proof.
  intros w clip Hin Hw. apply list_elem_of_In in Hin. simpl in Hin.
  destruct Hin as [<-|[<-|[<-|[]]]]; vm_compute in Hw;
    first [discriminate Hw | injection Hw as <-]; reflexivity.
Defined.

Lemma session_display_witness :
  frames_ok assets_short ["hello"; "empty"; "sea"] ∧ no_quit [] = true ∧
  display assets_short ["hello"; "empty"; "sea"] None = None ∧
  (play_sentence assets_short ["hello"; "empty"; "sea"] []).1 = Raise.
Proof.
  split; [exact frames_ok_short|]. split; [reflexivity|].
  split; [reflexivity|].
  apply (proj2 (session_display assets_short ["hello"; "empty"; "sea"] []
                  frames_ok_short eq_refl)).
  reflexivity.
Defined.

(** The number of frames shown by a session without quit request whose
    clips are non-empty frames of the data model: the frames of the clips
    of the words with a file, plus ten bridge frames between each two
    consecutive such clips. *)
Theorem session_frame_count
    (assets : gmap string (list (gmap string (list (list Qc)))))
    (words : list string) (pending : list Z) :
  clips_ok assets words → no_quit pending = true →
  (play_sentence assets words pending).1 = Continue ∧
  length (shown (play_sentence assets words pending).2) =
    (sum_list (length <$> loaded_clips assets words)
     + 10 * (length (loaded_clips assets words) - 1))%nat.
Proof.
  intros Hclips Hq.
  destruct (display_length assets words None Hclips) as (evs & Hevs & Hlen);
    [by intros f [=]|].
  assert (frames_ok assets words) as Hok.
  { intros w clip Hin Hw. by destruct (Hclips w clip Hin Hw). }
  pose proof (play_words_display assets words (initial pending) Hok) as H.
  cbn [initial last_frame_data keys shown printed] in H.
  specialize (H ltac:(by intros f [=]) Hq). rewrite Hevs in H.
  destruct H as (l & ks & H). unfold play_sentence. rewrite H.
  cbn [fst snd shown app]. by split.
Qed.

Lemma session_frame_count_witness :
  clips_ok assets_demo ["hello"; "nope"; "sea"] ∧ no_quit [] = true ∧
  (play_sentence assets_demo ["hello"; "nope"; "sea"] []).1 = Continue ∧
  length (shown (play_sentence assets_demo ["hello"; "nope"; "sea"] []).2) =
    (sum_list (length <$> loaded_clips assets_demo ["hello"; "nope"; "sea"])
     + 10 * (length (loaded_clips assets_demo ["hello"; "nope"; "sea"]) - 1))%nat.
Proof.
  split; [exact clips_ok_demo|]. split; [reflexivity|].
  apply (session_frame_count assets_demo ["hello"; "nope"; "sea"] []
           clips_ok_demo eq_refl).
Defined.

(** ** The dictionary builder *)

Section Builder.
Implicit Types (lm : landmark) (lms : list landmark).

Lemma convert_from_unfiltered lms : ∀ index,
  convert_from false index lms = map rounded_point lms.
Proof.
  induction lms as [|lm lms IH]; intros index; [done|].
  cbn [convert_from andb map]. by rewrite IH.
Qed.

Lemma omap_ext_in {X Y} (f g : X → option Y) (l : list X) :
  Forall (λ x, f x = g x) l → omap f l = omap g l.
Proof.
  induction 1 as [|x l Hx _ IH]; [done|]. cbn. by rewrite Hx, IH.
Qed.

Lemma convert_from_filtered lms : ∀ index,
  convert_from true index lms =
  omap (λ i, rounded_point <$> lms !! (i - index)%nat)
       (List.filter kept (seq index (length lms))).
Proof.
  induction lms as [|lm lms IH]; intros index; [done|].
  cbn [convert_from andb length seq List.filter].
  assert (omap (λ i, rounded_point <$> (lm :: lms) !! (i - index)%nat)
               (List.filter kept (seq (S index) (length lms)))
          = omap (λ i, rounded_point <$> lms !! (i - S index)%nat)
                 (List.filter kept (seq (S index) (length lms)))) as Hrest.
  { apply omap_ext_in, Forall_forall. intros i Hi.
    apply list_elem_of_In, filter_In in Hi as [Hi _].
    apply in_seq in Hi.
    replace (i - index)%nat with (S (i - S index)) by lia. done. }
  destruct (kept index); cbn [negb].
  - cbn [omap list_omap]. rewrite Nat.sub_diag. cbn [lookup list_lookup fmap option_fmap option_map].
    fold (@omap list _ _ _ (λ i, rounded_point <$> (lm :: lms) !! (i - index)%nat)
            (List.filter kept (seq (S index) (length lms)))).
    rewrite Hrest, <-IH. done.
  - rewrite Hrest, <-IH. done.
Qed.

Lemma convert_from_points (b : bool) lms : ∀ index,
  Forall (λ p : list Qc, length p = 3) (convert_from b index lms).
Proof.
  induction lms as [|lm lms IH]; intros index; [constructor|].
  cbn [convert_from]. destruct (b && negb (kept index)); [apply IH|].
  constructor; [done | apply IH].
Qed.

Lemma convert_points (o : option (list landmark)) (b : bool) :
  Forall (λ p : list Qc, length p = 3) (convert_landmarks_to_list o b).
Proof. destruct o; [apply convert_from_points | constructor]. Qed.

Lemma current_frame_data_get (res : ai_results) :
  get (current_frame_data res) "f"
    = convert_landmarks_to_list (face_landmarks res) true ∧
  get (current_frame_data res) "p"
    = convert_landmarks_to_list (pose_landmarks res) false ∧
  get (current_frame_data res) "l"
    = convert_landmarks_to_list (left_hand_landmarks res) false ∧
  get (current_frame_data res) "r"
    = convert_landmarks_to_list (right_hand_landmarks res) false.
Proof. repeat split; reflexivity. Qed.

Lemma current_frame_data_dom (res : ai_results) :
  dom (current_frame_data res) = list_to_set BODY_PARTS.
Proof.
  unfold current_frame_data, BODY_PARTS. rewrite !dom_insert_L, dom_singleton_L.
  set_solver.
Qed.

Lemma current_frame_data_ok (res : ai_results) :
  frame_ok (current_frame_data res) = true.
Proof.
  destruct (current_frame_data_get res) as (Hf & Hp & Hl & Hr).
  apply frame_ok_intro. intros key Hin.
  apply list_elem_of_In in Hin. simpl in Hin.
  destruct Hin as [<-|[<-|[<-|[<-|[]]]]];
    rewrite ?Hf, ?Hp, ?Hl, ?Hr; apply convert_points.
Qed.

Lemma built_clip_ok (detections : list ai_results) :
  forallb frame_ok (map current_frame_data detections) = true.
Proof.
  induction detections as [|res ds IH]; [done|]. simpl.
  by rewrite current_frame_data_ok, IH.
Qed.

End Builder.

Lemma kept_below (i : nat) : kept i = true → (i < 416)%nat.
Proof.
  unfold kept. intros (x & Hx & <-%Nat.eqb_eq)%existsb_exists.
  assert (Forall (λ x, (x < 416)%nat) FACE_INDICES_TO_KEEP) as Hall.
  { unfold FACE_INDICES_TO_KEEP. repeat (constructor; [lia|]). constructor. }
  by apply (proj1 (Forall_forall _ _) Hall), list_elem_of_In.
Qed.

Lemma filter_kept_above (n : nat) : ∀ start : nat,
  (416 ≤ start)%nat → List.filter kept (seq start n) = [].
Proof.
  induction n as [|n IH]; intros start Hs; [done|]. cbn [seq List.filter].
  destruct (kept start) eqn:Hk; [apply kept_below in Hk; lia|].
  apply IH. lia.
Qed.

(** What [convert_landmarks_to_list] keeps. Without the face filter: one
    point per landmark, in order, so that point [i] is landmark [i]. With
    it: the landmarks whose index is in [FACE_INDICES_TO_KEEP], in
    increasing order of index (not in the order of that list); a face of
    at least 416 landmarks, such as the detector's 468, gives exactly 42
    points. A part that was not detected gives the empty list. *)
Theorem landmarks_conversion (lms : list landmark) :
  convert_landmarks_to_list (Some lms) false = map rounded_point lms ∧
  convert_landmarks_to_list (Some lms) true
    = omap (λ i, rounded_point <$> lms !! i)
           (List.filter kept (seq 0 (length lms))) ∧
  ((416 ≤ length lms)%nat →
   length (convert_landmarks_to_list (Some lms) true) = 42%nat) ∧
  (∀ b, convert_landmarks_to_list None b = []).
Proof.
  assert (convert_landmarks_to_list (Some lms) true
    = omap (λ i, rounded_point <$> lms !! i)
           (List.filter kept (seq 0 (length lms)))) as Hface.
  { unfold convert_landmarks_to_list. rewrite convert_from_filtered.
    apply omap_ext_in, Forall_forall. intros i _. by rewrite Nat.sub_0_r. }
  split; [apply convert_from_unfiltered|]. split; [exact Hface|].
  split; [|done]. intros Hlen. rewrite Hface.
  replace (length lms) with (416 + (length lms - 416))%nat by lia.
  rewrite seq_app, List.filter_app.
  rewrite (filter_kept_above _ (0 + 416)), app_nil_r by lia.
  assert (∀ l : list nat,
            Forall (λ i, (i < length lms)%nat) l →
            length (omap (λ i, rounded_point <$> lms !! i) l) = length l)
    as Hcount.
  { induction 1 as [|i l Hi _ IH]; [done|]. cbn.
    destruct (lookup_lt_is_Some_2 lms i Hi) as [lm ->]. cbn.
    by rewrite <-IH. }
  rewrite Hcount.
  - vm_compute. reflexivity.
  - apply Forall_forall. intros i Hi.
    apply list_elem_of_In, filter_In in Hi as [Hi _]. apply in_seq in Hi. lia.
Qed.

Lemma landmarks_conversion_witness :
  (416 ≤ length (replicate 468 (Landmark 0%Qc 0%Qc 0%Qc)))%nat ∧
  length (convert_landmarks_to_list
            (Some (replicate 468 (Landmark 0%Qc 0%Qc 0%Qc))) true) = 42%nat.
Proof.
  assert (416 ≤ length (replicate 468 (Landmark 0%Qc 0%Qc 0%Qc)))%nat as Hlen
    by (rewrite length_replicate; lia).
  split; [exact Hlen|].
  exact (proj1 (proj2 (proj2 (landmarks_conversion
           (replicate 468 (Landmark 0%Qc 0%Qc 0%Qc))))) Hlen).
Defined.

(** ** Rounding to four decimals *)

Lemma round_half_even_close (q : Q) :
  (inject_Z (round_half_even q) - q <= 1 # 2)%Q ∧
  (q - inject_Z (round_half_even q) <= 1 # 2)%Q.
Proof.
  unfold round_half_even.
  pose proof (Qfloor_le q) as Hlo. pose proof (Qlt_floor q) as Hhi.
  rewrite inject_Z_plus in Hhi. change (inject_Z 1) with 1%Q in Hhi.
  destruct (Qcompare (q - inject_Z (Qfloor q)) (1 # 2)) eqn:Hc.
  - apply Qeq_alt in Hc. destruct (Z.even (Qfloor q));
      rewrite ?inject_Z_plus; change (inject_Z 1) with 1%Q; split; lra.
  - apply Qlt_alt in Hc. split; lra.
  - apply Qgt_alt in Hc. rewrite inject_Z_plus.
    change (inject_Z 1) with 1%Q. split; lra.
Qed.

Lemma round_half_even_Z (n : Z) : round_half_even (inject_Z n) = n.
Proof.
  unfold round_half_even. rewrite Qfloor_Z.
  assert (Qcompare (inject_Z n - inject_Z n) (1 # 2) = Lt) as ->; [|done].
  apply (proj1 (Qlt_alt _ _)). lra.
Qed.

Lemma round_half_even_comp (q q' : Q) :
  (q == q')%Q → round_half_even q = round_half_even q'.
Proof.
  intros Hq. unfold round_half_even. rewrite (Qfloor_comp _ _ Hq).
  assert (Qcompare (q - inject_Z (Qfloor q')) (1 # 2)
          = Qcompare (q' - inject_Z (Qfloor q')) (1 # 2)) as ->; [|done].
  apply Qcompare_comp; [by rewrite Hq | reflexivity].
Qed.

Lemma round4_Q (v : Qc) :
  (this (round4 v)
   == inject_Z (round_half_even (v * inject_Z 10000)) * (1 # 10000))%Q.
Proof. unfold round4. simpl. rewrite Qred_correct. reflexivity. Qed.

(** [round(v, 4)] on exact numbers: the result is a multiple of 1/10000, it
    is within 1/20000 of [v], and rounding it again changes nothing. So the
    coordinates stored by the builder have at most four decimals and are
    off by at most half a unit of the fourth decimal. *)
Theorem round4_properties (v : Qc) :
  (∃ n : Z, round4 v = Q2Qc (n # 10000)) ∧
  (round4 v - v ≤ Q2Qc (1 # 20000))%Qc ∧
  (v - round4 v ≤ Q2Qc (1 # 20000))%Qc ∧
  round4 (round4 v) = round4 v.
Proof.
  pose proof (round4_Q v) as Hv.
  destruct (round_half_even_close (v * inject_Z 10000)) as [Hup Hdown].
  set (n := round_half_even (v * inject_Z 10000)) in *.
  change (inject_Z 10000) with (10000 # 1)%Q in *.
  split; [|split; [|split]].
  - exists n. apply Qc_is_canon. etransitivity; [exact Hv|].
    symmetry. etransitivity; [apply Qred_correct|].
    unfold Qeq, inject_Z, Qmult. simpl. lia.
  - unfold Qcle. cbn [this Qcminus Qcplus Qcopp Q2Qc].
    rewrite !Qred_correct, Hv. lra.
  - unfold Qcle. cbn [this Qcminus Qcplus Qcopp Q2Qc].
    rewrite !Qred_correct, Hv. lra.
  - apply Qc_is_canon. rewrite !round4_Q.
    rewrite (round_half_even_comp (round4 v * inject_Z 10000) (inject_Z n)).
    + by rewrite round_half_even_Z.
    + rewrite Hv. change (inject_Z 10000) with (10000 # 1)%Q. field.
Qed.

(** ** From the builder to the player *)

(** Every dictionary written by the builder has exactly the four keys and
    is a frame of the data model (three coordinates per point), whatever
    was detected; its clip has one frame per image read from the video. *)
Theorem built_frames (word_name : string) (detections : list ai_results)
    (assets : gmap string (list (gmap string (list (list Qc))))) :
  ∃ clip,
    process_video_to_json word_name detections assets !! word_name
      = Some clip ∧
    length clip = length detections ∧
    Forall (λ F, dom F = {[ "f"; "p"; "l"; "r" ]} ∧ frame_ok F = true) clip.
Proof.
  exists (map current_frame_data detections).
  split; [apply lookup_insert_eq|]. split; [apply length_map|].
  apply Forall_forall. intros F HF.
  apply list_elem_of_In, in_map_iff in HF as (res & <- & _).
  split; [|apply current_frame_data_ok].
  rewrite current_frame_data_dom. unfold BODY_PARTS. set_solver.
Qed.

(** Two dictionaries written by the builder with the same point counts,
    numbers being taken as exact (on the code's floats: up to rounding at
    factor 1): interpolating at factor 0 returns the first dictionary
    itself and at factor 1 the second one, key set included. *)
Theorem built_frames_blend (res1 res2 : ai_results) :
  same_shape (current_frame_data res1) (current_frame_data res2) = true →
  calculate_smooth_frame (current_frame_data res1) (current_frame_data res2)
    0%Qc = Some (current_frame_data res1) ∧
  calculate_smooth_frame (current_frame_data res1) (current_frame_data res2)
    1%Qc = Some (current_frame_data res2).
Proof.
  intros Hshape.
  pose proof (current_frame_data_ok res1) as H1.
  pose proof (current_frame_data_ok res2) as H2.
  destruct (blend_at_0 _ _ H1 H2 Hshape) as (R0 & HR0 & L0).
  destruct (blend_at_1 _ _ H1 H2 Hshape) as (R1 & HR1 & L1).
  rewrite HR0, HR1. split; f_equal.
  - eapply frame_ext; eauto using calculate_smooth_frame_dom,
      current_frame_data_dom.
  - eapply frame_ext; eauto using calculate_smooth_frame_dom,
      current_frame_data_dom.
Qed.

Lemma built_frames_blend_witness :
  same_shape (current_frame_data detection_pose)
             (current_frame_data detection_pose_b) = true ∧
  calculate_smooth_frame (current_frame_data detection_pose)
    (current_frame_data detection_pose_b) 0%Qc
    = Some (current_frame_data detection_pose) ∧
  calculate_smooth_frame (current_frame_data detection_pose)
    (current_frame_data detection_pose_b) 1%Qc
    = Some (current_frame_data detection_pose_b).
Proof.
  split; [reflexivity|].
  apply (built_frames_blend detection_pose detection_pose_b). reflexivity.
Defined.

(** A word built from a video with at least one image plays: without a
    quit request, [play_sentence] on that word alone shows the built
    frames, one per image and in order, under the word's label, and runs to
    the end. *)
Theorem built_clip_plays (word_name : string) (detections : list ai_results)
    (assets : gmap string (list (gmap string (list (list Qc)))))
    (pending : list Z) :
  detections ≠ [] → no_quit pending = true →
  play_sentence (process_video_to_json word_name detections assets)
                [word_name] pending =
  (Continue,
   State (last (map current_frame_data detections))
         (drop (2 * length detections) pending)
         (map (λ res, (current_frame_data res, signing_label word_name))
              detections)
         []).
Proof.
  intros Hne Hq. unfold play_sentence, initial. cbn [play_words].
  unfold play_word, process_video_to_json. rewrite lookup_insert_eq.
  cbn [last_frame_data].
  rewrite (playback_run _ _ (State None pending [] []) (built_clip_ok _) Hq).
  cbn [last_frame_data keys shown printed app].
  rewrite length_map, map_map.
  destruct (last (map current_frame_data detections)) as [g|] eqn:Hg; [done|].
  apply last_None in Hg. by destruct detections.
Qed.

Lemma built_clip_plays_witness :
  [detection_pose] ≠ [] ∧ no_quit [] = true ∧
  play_sentence (process_video_to_json "sea" [detection_pose] ∅) ["sea"] [] =
  (Continue,
   State (last (map current_frame_data [detection_pose]))
         (drop (2 * length [detection_pose]) [])
         (map (λ res, (current_frame_data res, signing_label "sea"))
              [detection_pose])
         []).
Proof.
  split; [discriminate|]. split; [reflexivity|].
  apply (built_clip_plays "sea" [detection_pose] ∅ []);
    [discriminate | reflexivity].
Defined.

(** A video from which no image could be read leaves a clip without
    frames in the store. Played after a word whose clip was shown, it makes
    [play_sentence] raise at the subscript of line 93, once the previous
    clip has been shown in full; the words after it are not played. *)
Theorem unreadable_video_breaks_session
    (assets : gmap string (list (gmap string (list (list Qc)))))
    (w0 w : string) (clip0 : list (gmap string (list (list Qc))))
    (rest : list string) (pending : list Z) :
  assets !! w0 = Some clip0 → w0 ≠ w → clip0 ≠ [] →
  forallb frame_ok clip0 = true → no_quit pending = true →
  play_sentence (process_video_to_json w [] assets) (w0 :: w :: rest) pending =
  (Raise,
   State (last clip0) (drop (2 * length clip0) pending)
         (map (λ f, (f, signing_label w0)) clip0) []).
Proof.
  intros Hw0 Hne Hclip0 Hok Hq. unfold play_sentence, initial.
  cbn [play_words]. unfold play_word at 1, process_video_to_json.
  rewrite lookup_insert_ne, Hw0 by done. cbn [last_frame_data].
  rewrite (playback_run _ _ (State None pending [] []) Hok Hq).
  cbn [last_frame_data keys shown printed app from_option].
  destruct (last clip0) as [g|] eqn:Hg; [|by apply last_None in Hg].
  cbn [from_option]. rewrite play_word_empty_clip by apply lookup_insert_eq.
  done.
Qed.

Lemma unreadable_video_breaks_session_witness :
  assets_demo !! "hello" = Some clip_hello ∧ "hello" ≠ "sea" ∧
  clip_hello ≠ [] ∧ forallb frame_ok clip_hello = true ∧
  no_quit [] = true ∧
  play_sentence (process_video_to_json "sea" [] assets_demo)
                ("hello" :: "sea" :: ["hello"]) [] =
  (Raise,
   State (last clip_hello) (drop (2 * length clip_hello) [])
         (map (λ f, (f, signing_label "hello")) clip_hello) []).
Proof.
  split; [reflexivity|]. split; [discriminate|]. split; [discriminate|].
  split; [reflexivity|]. split; [reflexivity|].
  apply (unreadable_video_breaks_session assets_demo "hello" "sea" clip_hello
           ["hello"] []);
    [reflexivity | discriminate | discriminate | reflexivity | reflexivity].
Defined.

(** ** Where the circles are drawn *)

Lemma int_range (x : Qc) (width : Z) :
  (0 < width)%Z → (0 ≤ x)%Qc → (x < 1)%Qc →
  (0 ≤ int (x * Qc_of_Z width)%Qc < width)%Z.
Proof.
  intros Hw H0 H1. unfold int.
  set (q := (x * Qc_of_Z width)%Qc).
  assert (0 <= q)%Q as Hq0.
  { subst q. cbn [this Qcmult Q2Qc]. rewrite Qred_correct.
    unfold Qcle in H0. change (this 0%Qc) with 0%Q in H0.
    cbn [this Qc_of_Z]. apply Qmult_le_0_compat; [done|].
    unfold Qle. simpl. lia. }
  assert (q < inject_Z width)%Q as Hqw.
  { subst q. cbn [this Qcmult Q2Qc]. rewrite Qred_correct.
    unfold Qclt in H1. change (this 1%Qc) with 1%Q in H1.
    cbn [this Qc_of_Z].
    assert (0 < inject_Z width)%Q by (unfold Qlt; simpl; lia).
    unfold Qcle in H0. change (this 0%Qc) with 0%Q in H0. nra. }
  destruct (this q) as [num den] eqn:Hthis.
  unfold Qle, Qlt in Hq0, Hqw. simpl in Hq0, Hqw. cbn [Qnum Qden].
  rewrite Z.quot_div_nonneg by lia. split.
  - apply Z.div_pos; lia.
  - apply Z.div_lt_upper_bound; lia.
Qed.

(** Every circle drawn by [draw_frame] comes from a point of one of the
    four body parts and is placed from the first two coordinates of that
    point only. Numbers being taken as exact, its centre is the truncation
    of x * 1280 and y * 720 (the code truncates the float products, which
    can give the pixel just below); when x and y lie in [0, 1), the centre
    is a pixel of the 1280 x 720 canvas. *)
Theorem circles_on_canvas (F : gmap string (list (list Qc)))
    (cs : list circle) (c : circle) :
  draw_frame F = Some cs → c ∈ cs →
  ∃ key p x y,
    key ∈ BODY_PARTS ∧ p ∈ get F key ∧
    p !! 0%nat = Some x ∧ p !! 1%nat = Some y ∧
    center_x c = int (x * Qc_of_Z 1280)%Qc ∧
    center_y c = int (y * Qc_of_Z 720)%Qc ∧
    ((0 ≤ x)%Qc → (x < 1)%Qc → (0 ≤ center_x c < 1280)%Z) ∧
    ((0 ≤ y)%Qc → (y < 1)%Qc → (0 ≤ center_y c < 720)%Z).
Proof.
  unfold draw_frame. intros Hcs Hc.
  destruct (mapM _ BODY_PART_COLORS) as [drawn|] eqn:Hd; [|done].
  injection Hcs as <-. apply list_elem_of_join in Hc as (part & Hc & Hpart).
  apply mapM_Some_1 in Hd.
  apply list_elem_of_lookup in Hpart as [n Hn].
  destruct (Forall2_lookup_r _ _ _ _ _ Hd Hn) as ([key col] & Hkc & Hdraw).
  cbn [fst snd] in Hdraw.
  assert (key ∈ BODY_PARTS) as Hkey.
  { apply list_elem_of_lookup_2 in Hkc.
    unfold BODY_PART_COLORS, BODY_PARTS in *. set_solver. }
  destruct (F !! key) as [pts|] eqn:Hpts.
  2: { injection Hdraw as <-. by apply elem_of_nil in Hc. }
  apply mapM_Some_1 in Hdraw. apply list_elem_of_lookup in Hc as [m Hm].
  destruct (Forall2_lookup_r _ _ _ _ _ Hdraw Hm) as (p & Hp & Hdp).
  unfold draw_point in Hdp.
  destruct (p !! 0%nat) as [x|] eqn:Hx; [|done].
  destruct (p !! 1%nat) as [y|] eqn:Hy; [|done].
  injection Hdp as <-. exists key, p, x, y. cbn [center_x center_y].
  split; [done|]. split.
  { unfold get. rewrite Hpts. by eapply list_elem_of_lookup_2. }
  split; [done|]. split; [done|]. split; [done|]. split; [done|].
  split; intros H0 H1; by apply int_range.
Qed.

Lemma circles_on_canvas_witness :
  ∃ cs c,
    draw_frame frame_right = Some cs ∧ c ∈ cs ∧
    ∃ key p x y,
      key ∈ BODY_PARTS ∧ p ∈ get frame_right key ∧
      p !! 0%nat = Some x ∧ p !! 1%nat = Some y ∧
      center_x c = int (x * Qc_of_Z 1280)%Qc ∧
      center_y c = int (y * Qc_of_Z 720)%Qc ∧
      ((0 ≤ x)%Qc → (x < 1)%Qc → (0 ≤ center_x c < 1280)%Z) ∧
      ((0 ≤ y)%Qc → (y < 1)%Qc → (0 ≤ center_y c < 720)%Z).
Proof.
  eexists _, _. split; [reflexivity|].
  assert (Circle 1280 1440 (0, 255, 0)%Z
          ∈ [Circle 1280 1440 (0, 255, 0)%Z]) as Hin
    by apply list_elem_of_here.
  split; [exact Hin|].
  exact (circles_on_canvas frame_right _ _ eq_refl Hin).
Defined.

Lemma playback_quit_witness :
  frame_ok frame_a = true ∧ keys (initial [-1; 369; 7]%Z) = [-1; 369; 7]%Z ∧
  Z.land 369 255 = ord_q ∧
  playback "hello" (frame_a :: [frame_b]) (initial [-1; 369; 7]%Z) =
  (Return,
   State (Some frame_a) [7%Z]
         (shown (initial [-1; 369; 7]%Z) ++ [(frame_a, signing_label "hello")])
         (printed (initial [-1; 369; 7]%Z))).
Proof.
  split; [reflexivity|]. split; [reflexivity|]. split; [reflexivity|].
  apply (playback_quit "hello" frame_a [frame_b] (initial [-1; 369; 7]%Z)
           (-1) 369 [7%Z]); reflexivity.
Defined.
